(** * TransformToTCP: rotation basis to quaternion and to Euler ZYX angles

    A shallow embedding of the two numerical helpers of
    [TransformToTCP.py], [_axes_to_quaternion] and [_axes_to_euler_zyx],
    over the real numbers.  Python floats are read as reals; the three ways
    in which the arithmetic of the script can leave the reals (division by
    zero, [math.asin] outside its domain, a negative base under [** 0.5])
    are kept explicit in a small error monad.

    The scene-graph helpers [_find_tcp_occurrences] and [_occ_path] and the
    entry point [run] follow, over a record model of the host objects the
    script reads; what [run] shows is the list of its popups and log
    lines. *)

From Stdlib Require Import Reals Lra Psatz Bool.
From Stdlib Require Import RNsatz.
From Stdlib Require Import String Ascii List Arith Lia.
Import ListNotations.

Open Scope R_scope.

(** ** Outcomes of a Python float computation *)

Inductive PyFault : Type :=
| ZeroDivisionError   (* [a / 0.0] *)
| ValueError          (* [math.asin] outside [-1, 1]: math domain error *)
| ComplexPower.       (* negative base under [** 0.5]: the value is a complex *)

Inductive result (A : Type) : Type :=
| Ok (a : A)
| Fault (e : PyFault).

Arguments Ok {A} a.
Arguments Fault {A} e.

Definition bind {A B : Type} (m : result A) (k : A -> result B) : result B :=
  match m with
  | Ok a => k a
  | Fault e => Fault e
  end.

Notation "v <- m ;; k" := (bind m (fun v => k))
  (at level 61, m at next level, right associativity).

(** ** Comparisons of floats, as booleans *)

Definition Rgtb (a b : R) : bool := if Rgt_dec a b then true else false.
Definition Rltb (a b : R) : bool := if Rlt_dec a b then true else false.
Definition Rleb (a b : R) : bool := if Rle_dec a b then true else false.

(** ** Python's arithmetic primitives used by the script *)

(** [a / b] on floats. *)
Definition py_div (a b : R) : result R :=
  if Req_dec_T b 0 then Fault ZeroDivisionError else Ok (a / b).

(** [a ** 0.5] on floats. *)
Definition py_pow_half (a : R) : result R :=
  if Rle_dec 0 a then Ok (sqrt a) else Fault ComplexPower.

(** [math.asin]. *)
Definition py_asin (v : R) : result R :=
  if Rleb (-1) v && Rleb v 1 then Ok (asin v) else Fault ValueError.

(** [math.atan2 y x]: the angle of the point [(x, y)] in [(-pi, pi]],
    and [0] at the origin. *)
Definition atan2 (y x : R) : R :=
  if Rlt_dec 0 x then atan (y / x)
  else if Rlt_dec x 0 then
    (if Rle_dec 0 y then atan (y / x) + PI else atan (y / x) - PI)
  else if Rlt_dec 0 y then PI / 2
  else if Rlt_dec y 0 then - (PI / 2)
  else 0.

(** ** Data model *)

(** [adsk.core.Vector3D], read through its [x], [y], [z] properties. *)
Module Vector3D.
Record t : Type := mk { x : R; y : R; z : R }.
End Vector3D.

(** The quaternion tuple [(qx, qy, qz, qw)] and the Euler tuple [(x, y, z)]. *)
Definition Quaternion : Type := (R * R * R * R)%type.
Definition EulerZYX : Type := (R * R * R)%type.

(** ** [_axes_to_quaternion] *)

Definition _axes_to_quaternion (xa ya za : Vector3D.t) : result Quaternion :=
  let m00 := Vector3D.x xa in let m01 := Vector3D.x ya in let m02 := Vector3D.x za in
  let m10 := Vector3D.y xa in let m11 := Vector3D.y ya in let m12 := Vector3D.y za in
  let m20 := Vector3D.z xa in let m21 := Vector3D.z ya in let m22 := Vector3D.z za in
  let tr := m00 + m11 + m22 in
  if Rgtb tr 0 then
    r <- py_pow_half (tr + 1.0) ;;
    let S := r * 2 in
    let qw := 0.25 * S in
    qx <- py_div (m21 - m12) S ;;
    qy <- py_div (m02 - m20) S ;;
    qz <- py_div (m10 - m01) S ;;
    Ok (qx, qy, qz, qw)
  else if Rgtb m00 m11 && Rgtb m00 m22 then
    r <- py_pow_half (1.0 + m00 - m11 - m22) ;;
    let S := r * 2 in
    qw <- py_div (m21 - m12) S ;;
    let qx := 0.25 * S in
    qy <- py_div (m01 + m10) S ;;
    qz <- py_div (m02 + m20) S ;;
    Ok (qx, qy, qz, qw)
  else if Rgtb m11 m22 then
    r <- py_pow_half (1.0 + m11 - m00 - m22) ;;
    let S := r * 2 in
    qw <- py_div (m02 - m20) S ;;
    qx <- py_div (m01 + m10) S ;;
    let qy := 0.25 * S in
    qz <- py_div (m12 + m21) S ;;
    Ok (qx, qy, qz, qw)
  else
    r <- py_pow_half (1.0 + m22 - m00 - m11) ;;
    let S := r * 2 in
    qw <- py_div (m10 - m01) S ;;
    qx <- py_div (m02 + m20) S ;;
    qy <- py_div (m12 + m21) S ;;
    let qz := 0.25 * S in
    Ok (qx, qy, qz, qw).

(** ** [_axes_to_euler_zyx] *)

Definition _axes_to_euler_zyx (xa ya za : Vector3D.t) : result EulerZYX :=
  let m00 := Vector3D.x xa in let m01 := Vector3D.x ya in let m02 := Vector3D.x za in
  let m10 := Vector3D.y xa in let m11 := Vector3D.y ya in let m12 := Vector3D.y za in
  let m20 := Vector3D.z xa in let m21 := Vector3D.z ya in let m22 := Vector3D.z za in
  let m20c := Rmax (-1.0) (Rmin 1.0 m20) in
  if Rltb (Rabs m20c) 1.0 then
    a <- py_asin m20c ;;
    let y := - a in
    let x := atan2 m21 m22 in
    let z := atan2 m10 m00 in
    Ok (x, y, z)
  else
    let y := if Rleb m20c (-1.0) then PI / 2 else - PI / 2 in
    let x := atan2 (- m01) m11 in
    let z := 0.0 in
    Ok (x, y, z).

(** ** Which formula [_axes_to_quaternion] selects

    The guards of the [if]/[elif] chain, on their own, and what each arm
    puts under the square root, divides by and returns. *)

Inductive QuatBranch : Type :=
| TracePositive   (* [if tr > 0] *)
| Diag00          (* [elif (m00 > m11) and (m00 > m22)] *)
| Diag11          (* [elif m11 > m22] *)
| Diag22.         (* [else] *)

Definition quat_branch (xa ya za : Vector3D.t) : QuatBranch :=
  let m00 := Vector3D.x xa in
  let m11 := Vector3D.y ya in
  let m22 := Vector3D.z za in
  let tr := m00 + m11 + m22 in
  if Rgtb tr 0 then TracePositive
  else if Rgtb m00 m11 && Rgtb m00 m22 then Diag00
  else if Rgtb m11 m22 then Diag11
  else Diag22.

Definition radicand (b : QuatBranch) (xa ya za : Vector3D.t) : R :=
  let m00 := Vector3D.x xa in
  let m11 := Vector3D.y ya in
  let m22 := Vector3D.z za in
  match b with
  | TracePositive => m00 + m11 + m22 + 1.0
  | Diag00 => 1.0 + m00 - m11 - m22
  | Diag11 => 1.0 + m11 - m00 - m22
  | Diag22 => 1.0 + m22 - m00 - m11
  end.

Definition divisor (b : QuatBranch) (xa ya za : Vector3D.t) : R :=
  sqrt (radicand b xa ya za) * 2.

Definition branch_quaternion (b : QuatBranch) (xa ya za : Vector3D.t)
  : Quaternion :=
  let m00 := Vector3D.x xa in let m01 := Vector3D.x ya in let m02 := Vector3D.x za in
  let m10 := Vector3D.y xa in let m11 := Vector3D.y ya in let m12 := Vector3D.y za in
  let m20 := Vector3D.z xa in let m21 := Vector3D.z ya in let m22 := Vector3D.z za in
  let S := divisor b xa ya za in
  match b with
  | TracePositive =>
      ((m21 - m12) / S, (m02 - m20) / S, (m10 - m01) / S, 0.25 * S)
  | Diag00 =>
      (0.25 * S, (m01 + m10) / S, (m02 + m20) / S, (m21 - m12) / S)
  | Diag11 =>
      ((m01 + m10) / S, 0.25 * S, (m12 + m21) / S, (m02 - m20) / S)
  | Diag22 =>
      ((m02 + m20) / S, (m12 + m21) / S, 0.25 * S, (m10 - m01) / S)
  end.

(** The guard of [_axes_to_euler_zyx]. *)

Inductive EulerBranch : Type :=
| Regular       (* [if abs(m20c) < 1.0] *)
| GimbalLock.   (* [else] *)

Definition clamp_m20 (xa : Vector3D.t) : R :=
  Rmax (-1.0) (Rmin 1.0 (Vector3D.z xa)).

Definition euler_branch (xa : Vector3D.t) : EulerBranch :=
  if Rltb (Rabs (clamp_m20 xa)) 1.0 then Regular else GimbalLock.

(** What each arm of [_axes_to_euler_zyx] returns, as [(x, y, z)]. *)
Definition branch_euler (b : EulerBranch) (xa ya za : Vector3D.t) : EulerZYX :=
  let m00 := Vector3D.x xa in let m01 := Vector3D.x ya in
  let m10 := Vector3D.y xa in let m11 := Vector3D.y ya in
  let m21 := Vector3D.z ya in let m22 := Vector3D.z za in
  let m20c := clamp_m20 xa in
  match b with
  | Regular => (atan2 m21 m22, - asin m20c, atan2 m10 m00)
  | GimbalLock =>
      (atan2 (- m01) m11,
       if Rleb m20c (-1.0) then PI / 2 else - PI / 2,
       0.0)
  end.

(** ** Rotation matrices *)

Record Mat3 : Type := mkMat3 {
  e00 : R; e01 : R; e02 : R;
  e10 : R; e11 : R; e12 : R;
  e20 : R; e21 : R; e22 : R
}.

(** The matrix whose columns are the three axes. *)
Definition basis_matrix (xa ya za : Vector3D.t) : Mat3 :=
  mkMat3 (Vector3D.x xa) (Vector3D.x ya) (Vector3D.x za)
         (Vector3D.y xa) (Vector3D.y ya) (Vector3D.y za)
         (Vector3D.z xa) (Vector3D.z ya) (Vector3D.z za).

Definition mmul (A B : Mat3) : Mat3 :=
  mkMat3
    (e00 A * e00 B + e01 A * e10 B + e02 A * e20 B)
    (e00 A * e01 B + e01 A * e11 B + e02 A * e21 B)
    (e00 A * e02 B + e01 A * e12 B + e02 A * e22 B)
    (e10 A * e00 B + e11 A * e10 B + e12 A * e20 B)
    (e10 A * e01 B + e11 A * e11 B + e12 A * e21 B)
    (e10 A * e02 B + e11 A * e12 B + e12 A * e22 B)
    (e20 A * e00 B + e21 A * e10 B + e22 A * e20 B)
    (e20 A * e01 B + e21 A * e11 B + e22 A * e21 B)
    (e20 A * e02 B + e21 A * e12 B + e22 A * e22 B).

(** Elementary rotations about the X, Y and Z axes. *)
Definition Rx (a : R) : Mat3 :=
  mkMat3 1 0 0
         0 (cos a) (- sin a)
         0 (sin a) (cos a).

Definition Ry (a : R) : Mat3 :=
  mkMat3 (cos a) 0 (sin a)
         0 1 0
         (- sin a) 0 (cos a).

Definition Rz (a : R) : Mat3 :=
  mkMat3 (cos a) (- sin a) 0
         (sin a) (cos a) 0
         0 0 1.

(** Intrinsic ZYX composition, [R = Rz * Ry * Rx], of an Euler tuple
    [(rx, ry, rz)]. *)
Definition euler_zyx_to_matrix (e : EulerZYX) : Mat3 :=
  let '(rx, ry, rz) := e in
  mmul (Rz rz) (mmul (Ry ry) (Rx rx)).

(** The standard rotation matrix of a quaternion [(qx, qy, qz, qw)]. *)
Definition quat_to_matrix (q : Quaternion) : Mat3 :=
  let '(qx, qy, qz, qw) := q in
  mkMat3
    (1 - 2 * (qy * qy + qz * qz)) (2 * (qx * qy - qz * qw)) (2 * (qx * qz + qy * qw))
    (2 * (qx * qy + qz * qw)) (1 - 2 * (qx * qx + qz * qz)) (2 * (qy * qz - qx * qw))
    (2 * (qx * qz - qy * qw)) (2 * (qy * qz + qx * qw)) (1 - 2 * (qx * qx + qy * qy)).

Definition quat_norm2 (q : Quaternion) : R :=
  let '(qx, qy, qz, qw) := q in
  qx * qx + qy * qy + qz * qz + qw * qw.

(** ** Orthonormal right-handed bases *)

Definition dot (u v : Vector3D.t) : R :=
  Vector3D.x u * Vector3D.x v + Vector3D.y u * Vector3D.y v
  + Vector3D.z u * Vector3D.z v.

Definition cross (u v : Vector3D.t) : Vector3D.t :=
  Vector3D.mk
    (Vector3D.y u * Vector3D.z v - Vector3D.z u * Vector3D.y v)
    (Vector3D.z u * Vector3D.x v - Vector3D.x u * Vector3D.z v)
    (Vector3D.x u * Vector3D.y v - Vector3D.y u * Vector3D.x v).

(** Determinant of the matrix with columns [xa], [ya], [za]. *)
Definition det3 (xa ya za : Vector3D.t) : R := dot (cross xa ya) za.

Record rotation_basis (xa ya za : Vector3D.t) : Prop := {
  norm_x : dot xa xa = 1;
  norm_y : dot ya ya = 1;
  norm_z : dot za za = 1;
  orth_xy : dot xa ya = 0;
  orth_yz : dot ya za = 0;
  orth_zx : dot za xa = 0;
  right_handed : det3 xa ya za = 1
}.

(** ** Sample bases *)

(** The identity frame. *)
Definition unit_x : Vector3D.t := Vector3D.mk 1 0 0.
Definition unit_y : Vector3D.t := Vector3D.mk 0 1 0.
Definition unit_z : Vector3D.t := Vector3D.mk 0 0 1.

(** A quarter turn about Z: [xAxis = (0,1,0)], [yAxis = (-1,0,0)]. *)
Definition yaw90_x : Vector3D.t := Vector3D.mk 0 1 0.
Definition yaw90_y : Vector3D.t := Vector3D.mk (-1) 0 0.

(** Half turns about X, Y and Z, given by the two axes they flip. *)
Definition flip_x : Vector3D.t := Vector3D.mk (-1) 0 0.
Definition flip_y : Vector3D.t := Vector3D.mk 0 (-1) 0.
Definition flip_z : Vector3D.t := Vector3D.mk 0 0 (-1).

(** The frame [xAxis = (0,0,-1)], [yAxis = (0,1,0)], [zAxis = (1,0,0)]. *)
Definition lock_x : Vector3D.t := Vector3D.mk 0 0 (-1).
Definition lock_y : Vector3D.t := Vector3D.mk 0 1 0.
Definition lock_z : Vector3D.t := Vector3D.mk 1 0 0.

(** The frame [xAxis = (0,0,1)], [yAxis = (0,1,0)], [zAxis = (-1,0,0)]. *)
Definition lockp_x : Vector3D.t := Vector3D.mk 0 0 1.
Definition lockp_y : Vector3D.t := Vector3D.mk 0 1 0.
Definition lockp_z : Vector3D.t := Vector3D.mk (-1) 0 0.

(** ** Columns and rows of a matrix, symmetries of a quaternion *)

Definition column0 (M : Mat3) : Vector3D.t :=
  Vector3D.mk (e00 M) (e10 M) (e20 M).
Definition column1 (M : Mat3) : Vector3D.t :=
  Vector3D.mk (e01 M) (e11 M) (e21 M).
Definition column2 (M : Mat3) : Vector3D.t :=
  Vector3D.mk (e02 M) (e12 M) (e22 M).

Definition row0 (M : Mat3) : Vector3D.t :=
  Vector3D.mk (e00 M) (e01 M) (e02 M).
Definition row1 (M : Mat3) : Vector3D.t :=
  Vector3D.mk (e10 M) (e11 M) (e12 M).
Definition row2 (M : Mat3) : Vector3D.t :=
  Vector3D.mk (e20 M) (e21 M) (e22 M).

Definition quat_neg (q : Quaternion) : Quaternion :=
  let '(qx, qy, qz, qw) := q in (- qx, - qy, - qz, - qw).

Definition quat_conj (q : Quaternion) : Quaternion :=
  let '(qx, qy, qz, qw) := q in (- qx, - qy, - qz, qw).

(** * The scene-graph helpers and [run] *)

Open Scope string_scope.

(** ** Python's string primitives used by the script

    Names are read as byte strings. *)

(** [str.lower] on one character: ASCII capitals are shifted, every other
    byte is kept. *)
Definition lower_ascii (c : ascii) : ascii :=
  let n := nat_of_ascii c in
  if (65 <=? n)%nat && (n <=? 90)%nat then ascii_of_nat (n + 32) else c.

(** [s.lower()]. *)
Fixpoint lower (s : string) : string :=
  match s with
  | EmptyString => EmptyString
  | String c t => String (lower_ascii c) (lower t)
  end.

(** [needle in hay], on strings. *)
Fixpoint contains (needle hay : string) : bool :=
  prefix needle hay
  || match hay with
     | EmptyString => false
     | String _ t => contains needle t
     end.

(** [s.split(sep)] for a one-character separator; the script does not call
    it, it is the inverse against which [_occ_path] is measured. *)
Fixpoint split_on (sep : ascii) (s : string) : list string :=
  match s with
  | EmptyString => [EmptyString]
  | String c t =>
      if Ascii.eqb c sep then EmptyString :: split_on sep t
      else match split_on sep t with
           | [] => [String c EmptyString]
           | h :: r => String c h :: r
           end
  end.

(** The line feed of the script's string literals. *)
Definition nl : string := String (ascii_of_nat 10) EmptyString.

(** ** The scene graph *)

(** [adsk.core.Matrix3D], read through [getAsCoordinateSystem]. *)
Record Matrix3D : Type := mkMatrix3D {
  origin : Vector3D.t;
  xAxis : Vector3D.t;
  yAxis : Vector3D.t;
  zAxis : Vector3D.t
}.

Definition getAsCoordinateSystem (T : Matrix3D)
  : Vector3D.t * Vector3D.t * Vector3D.t * Vector3D.t :=
  (origin T, xAxis T, yAxis T, zAxis T).

(** [adsk.fusion.Component] and [adsk.fusion.Occurrence], with the
    properties the script reads. *)
Set Warnings "-register-all".

Inductive Component : Type :=
| mkComponent (name : string) (allOccurrences : list Occurrence)
with Occurrence : Type :=
| mkOccurrence (component : Component) (assemblyContext : option Occurrence)
               (transform : Matrix3D).

Definition name (c : Component) : string :=
  match c with mkComponent n _ => n end.

Definition allOccurrences (c : Component) : list Occurrence :=
  match c with mkComponent _ l => l end.

Definition component (o : Occurrence) : Component :=
  match o with mkOccurrence c _ _ => c end.

Definition assemblyContext (o : Occurrence) : option Occurrence :=
  match o with mkOccurrence _ p _ => p end.

Definition transform (o : Occurrence) : Matrix3D :=
  match o with mkOccurrence _ _ T => T end.

(** [adsk.fusion.Design], read through [rootComponent]. *)
Record Design : Type := mkDesign { rootComponent : Component }.

(** ** [_find_tcp_occurrences] *)

Definition _find_tcp_occurrences (root : Component)
  : list Occurrence * list Occurrence :=
  fold_left
    (fun (acc : list Occurrence * list Occurrence) (occ : Occurrence) =>
       let '(exact, fallback) := acc in
       let name := name (component occ) in
       if name =? "TCP" then (exact ++ [occ], fallback)%list
       else if contains "tcp" (lower name) then (exact, fallback ++ [occ])%list
       else (exact, fallback))
    (allOccurrences root) ([], []).

(** The two tests of the loop body, on their own. *)
Definition is_exact (o : Occurrence) : bool := name (component o) =? "TCP".

Definition is_fallback (o : Occurrence) : bool :=
  negb (name (component o) =? "TCP")
  && contains "tcp" (lower (name (component o))).

(** ** [_occ_path] *)

(** [parts] when the [while] loop ends: the names from [occ] up to its
    outermost context. *)
Fixpoint occ_parts (o : Occurrence) : list string :=
  match o with
  | mkOccurrence c ctx _ =>
      name c :: match ctx with
                | None => []
                | Some p => occ_parts p
                end
  end.

Definition _occ_path (occ : Occurrence) : string :=
  String.concat "/" (rev (occ_parts occ)).

(** ** [run] *)

(** What the script shows: [ui.messageBox] and [app.log], in order. *)
Inductive UIEvent : Type :=
| MessageBox (text : string)
| Log (text : string).

(** [math.degrees]. *)
Definition degrees (r : R) : R := r * (180 / PI).

Section Script.

(** The renderings [format(v, ".3f")] and [format(v, ".9f")] of a float and
    the text of [traceback.format_exc()] belong to the Python runtime. *)
Variable format_3f : R -> string.
Variable format_9f : R -> string.
Variable format_exc : PyFault -> string.

(** [_msg]. *)
Definition _msg (s : string) : list UIEvent := [MessageBox s].

(** The statement [if len(tcp_occs) > 1: ui.messageBox(...)] of [run]. *)
Definition multiple_warning (tcp_occs : list Occurrence) : list UIEvent :=
  if (1 <? List.length tcp_occs)%nat
  then [MessageBox
          ("Multiple 'TCP' occurrences found; using the first:" ++ nl ++ nl
           ++ String.concat nl (map _occ_path tcp_occs))]
  else [].

(** The popup and the log line of [run] for [tcp_occ], once its quaternion
    and its Euler angles are known. *)
Definition pose_events (tcp_occ : Occurrence) (q : Quaternion) (e : EulerZYX)
  : list UIEvent :=
  let '(origin, x_axis, y_axis, z_axis) :=
    getAsCoordinateSystem (transform tcp_occ) in
  let '(qx, qy, qz, qw) := q in
  let '(rx, ry, rz) := e in
  let rx_deg := degrees rx in
  let ry_deg := degrees ry in
  let rz_deg := degrees rz in
  let tx_mm := Vector3D.x origin * 10 in
  let ty_mm := Vector3D.y origin * 10 in
  let tz_mm := Vector3D.z origin * 10 in
  let abb_pose :=
    "[[" ++ format_3f tx_mm ++ ", " ++ format_3f ty_mm ++ ", "
    ++ format_3f tz_mm ++ "], [" ++ format_9f qw ++ ", " ++ format_9f qx
    ++ ", " ++ format_9f qy ++ ", " ++ format_9f qz ++ "]]" in
  [ MessageBox
      ("Top-level → TCP transform" ++ nl
       ++ "TCP position (mm): [" ++ format_3f tx_mm ++ ", "
       ++ format_3f ty_mm ++ ", " ++ format_3f tz_mm ++ "]" ++ nl
       ++ "Quaternion (x,y,z,w): [" ++ format_9f qx ++ ", " ++ format_9f qy
       ++ ", " ++ format_9f qz ++ ", " ++ format_9f qw ++ "]" ++ nl
       ++ "Euler ZYX (deg): X=" ++ format_3f rx_deg ++ ", Y="
       ++ format_3f ry_deg ++ ", Z=" ++ format_3f rz_deg ++ nl
       ++ "ABB pose: " ++ abb_pose ++ nl ++ nl
       ++ "(Occurrence used: " ++ _occ_path tcp_occ ++ ")");
    Log ("ABB pose: " ++ abb_pose) ].

(** [run], given what [Design.cast(app.activeProduct)] returns.  The
    events are listed in the order in which they are shown; a fault inside
    the [try] block ends it with the traceback popup of the [except]
    clause. *)
Definition run (design : option Design) : list UIEvent :=
  match design with
  | None => _msg "Open a Fusion design first."
  | Some design =>
      let root := rootComponent design in
      let '(exact, fallback) := _find_tcp_occurrences root in
      let tcp_occs := match exact with [] => fallback | _ :: _ => exact end in
      match tcp_occs with
      | [] => _msg "No occurrence found for a component named 'TCP'."
      | tcp_occ :: _ =>
          let warning := multiple_warning tcp_occs in
          let '(origin, x_axis, y_axis, z_axis) :=
            getAsCoordinateSystem (transform tcp_occ) in
          match _axes_to_quaternion x_axis y_axis z_axis with
          | Fault err => (warning ++ [MessageBox (format_exc err)])%list
          | Ok q =>
              match _axes_to_euler_zyx x_axis y_axis z_axis with
              | Fault err => (warning ++ [MessageBox (format_exc err)])%list
              | Ok e => (warning ++ pose_events tcp_occ q e)%list
              end
          end
      end
  end.

(** What [run] shows for [tcp_occ] when neither conversion faults: the
    popup and the log line built from the selected arms. *)
Definition occurrence_pose (tcp_occ : Occurrence) : list UIEvent :=
  let T := transform tcp_occ in
  pose_events tcp_occ
    (branch_quaternion (quat_branch (xAxis T) (yAxis T) (zAxis T))
                       (xAxis T) (yAxis T) (zAxis T))
    (branch_euler (euler_branch (xAxis T)) (xAxis T) (yAxis T) (zAxis T)).

End Script.

(** ** Sample scene *)

Definition frame0 : Matrix3D :=
  mkMatrix3D (Vector3D.mk 1 2 3) unit_x unit_y unit_z.

Definition occ_asm : Occurrence :=
  mkOccurrence (mkComponent "Asm" []) None frame0.

Definition occ_sub : Occurrence :=
  mkOccurrence (mkComponent "SubAsm" []) (Some occ_asm) frame0.

Definition occ_tool : Occurrence :=
  mkOccurrence (mkComponent "my_Tcp_2" []) (Some occ_asm) frame0.

Definition occ_tcp : Occurrence :=
  mkOccurrence (mkComponent "TCP" []) (Some occ_sub) frame0.

Definition scene_exact : Design :=
  mkDesign (mkComponent "Root" [occ_tool; occ_asm; occ_tcp; occ_sub; occ_tcp]).

Definition scene_fallback : Design :=
  mkDesign (mkComponent "Root" [occ_asm; occ_tool; occ_sub]).

Definition scene_none : Design :=
  mkDesign (mkComponent "Root" [occ_asm; occ_sub]).

(** Stand-ins for the runtime's renderings. *)
Definition no_format (v : R) : string := "".
Definition no_traceback (e : PyFault) : string := "".

(** * Proofs *)

(** ** Primitives *)

Lemma Rgtb_spec (a b : R) : reflect (a > b) (Rgtb a b).
Proof. unfold Rgtb; destruct (Rgt_dec a b); constructor; assumption. Qed.

Lemma Rltb_spec (a b : R) : reflect (a < b) (Rltb a b).
Proof. unfold Rltb; destruct (Rlt_dec a b); constructor; assumption. Qed.

Lemma Rleb_spec (a b : R) : reflect (a <= b) (Rleb a b).
Proof. unfold Rleb; destruct (Rle_dec a b); constructor; assumption. Qed.

Lemma py_pow_half_ok (a : R) : 0 <= a -> py_pow_half a = Ok (sqrt a).
Proof.
  intros Ha; unfold py_pow_half.
  destruct (Rle_dec 0 a) as [_ | Hn]; [reflexivity | contradiction].
Qed.

Lemma py_div_ok (a b : R) : b <> 0 -> py_div a b = Ok (a / b).
Proof.
  intros Hb; unfold py_div.
  destruct (Req_dec_T b 0) as [He | _]; [contradiction | reflexivity].
Qed.

Lemma py_asin_ok (v : R) : -1 <= v <= 1 -> py_asin v = Ok (asin v).
Proof.
  intros [Hl Hu]; unfold py_asin.
  destruct (Rleb_spec (-1) v); [ | contradiction].
  destruct (Rleb_spec v 1); [reflexivity | contradiction].
Qed.

(** ** The branch taken by [_axes_to_quaternion] *)

Ltac split_guards :=
  repeat match goal with
         | |- context [Rgtb ?a ?b] => destruct (Rgtb_spec a b)
         | |- context [Rltb ?a ?b] => destruct (Rltb_spec a b)
         | |- context [Rleb ?a ?b] => destruct (Rleb_spec a b)
         end; cbn [andb].

(** Whatever the input, the radicand of the selected arm is at least 1. *)
Lemma radicand_ge_1 (xa ya za : Vector3D.t) :
  1 <= radicand (quat_branch xa ya za) xa ya za.
Proof.
  unfold quat_branch, radicand; split_guards; lra.
Qed.

Lemma divisor_ge_2 (xa ya za : Vector3D.t) :
  2 <= divisor (quat_branch xa ya za) xa ya za.
Proof.
  unfold divisor.
  pose proof (radicand_ge_1 xa ya za) as H.
  apply sqrt_le_1_alt in H. rewrite sqrt_1 in H. lra.
Qed.

(** [_axes_to_quaternion] returns the tuple of the selected arm. *)
Lemma axes_to_quaternion_branch (xa ya za : Vector3D.t) :
  _axes_to_quaternion xa ya za
  = Ok (branch_quaternion (quat_branch xa ya za) xa ya za).
Proof.
  pose proof (radicand_ge_1 xa ya za) as Hr.
  pose proof (divisor_ge_2 xa ya za) as Hd.
  revert Hr Hd.
  unfold _axes_to_quaternion, quat_branch, branch_quaternion, divisor, radicand.
  split_guards; intros Hr Hd;
    rewrite py_pow_half_ok by lra; cbn [bind];
    rewrite !py_div_ok by lra; cbn [bind]; reflexivity.
Qed.

(** ** [atan2] recovers the point from its angle and radius *)

Lemma radius_factor (y x : R) :
  x <> 0 -> sqrt (x * x + y * y) = Rabs x * sqrt (1 + (y / x)²).
Proof.
  intros Hx.
  replace (x * x + y * y) with (x² * (1 + (y / x)²)) by (unfold Rsqr; field; exact Hx).
  rewrite sqrt_mult.
  - rewrite sqrt_Rsqr_abs. reflexivity.
  - apply Rle_0_sqr.
  - pose proof (Rle_0_sqr (y / x)); lra.
Qed.

Lemma slope_radius_pos (t : R) : 0 < sqrt (1 + t²).
Proof. apply sqrt_lt_R0. pose proof (Rle_0_sqr t); lra. Qed.

Lemma atan2_cos (y x : R) : cos (atan2 y x) * sqrt (x * x + y * y) = x.
Proof.
  unfold atan2.
  destruct (Rlt_dec 0 x) as [Hpos | Hnpos].
  - rewrite radius_factor by lra. rewrite Rabs_pos_eq by lra.
    rewrite cos_atan. pose proof (slope_radius_pos (y / x)). field. lra.
  - destruct (Rlt_dec x 0) as [Hneg | Hnneg].
    + rewrite radius_factor by lra. rewrite Rabs_left by lra.
      pose proof (slope_radius_pos (y / x)).
      destruct (Rle_dec 0 y).
      * rewrite neg_cos, cos_atan. field. lra.
      * rewrite cos_minus, cos_PI, sin_PI, cos_atan. field. lra.
    + assert (x = 0) by lra. subst x.
      destruct (Rlt_dec 0 y); [ | destruct (Rlt_dec y 0)].
      * rewrite cos_PI2. ring.
      * rewrite cos_neg, cos_PI2. ring.
      * assert (y = 0) by lra. subst y.
        replace (0 * 0 + 0 * 0) with 0 by ring. rewrite sqrt_0. ring.
Qed.

Lemma atan2_sin (y x : R) : sin (atan2 y x) * sqrt (x * x + y * y) = y.
Proof.
  unfold atan2.
  destruct (Rlt_dec 0 x) as [Hpos | Hnpos].
  - rewrite radius_factor by lra. rewrite Rabs_pos_eq by lra.
    rewrite sin_atan. pose proof (slope_radius_pos (y / x)). field. lra.
  - destruct (Rlt_dec x 0) as [Hneg | Hnneg].
    + rewrite radius_factor by lra. rewrite Rabs_left by lra.
      pose proof (slope_radius_pos (y / x)).
      destruct (Rle_dec 0 y).
      * rewrite neg_sin, sin_atan. field. lra.
      * rewrite sin_minus, cos_PI, sin_PI, sin_atan. field. lra.
    + assert (x = 0) by lra. subst x.
      replace (0 * 0 + y * y) with (y²) by (unfold Rsqr; ring).
      rewrite sqrt_Rsqr_abs.
      destruct (Rlt_dec 0 y); [ | destruct (Rlt_dec y 0)].
      * rewrite sin_PI2, Rabs_pos_eq by lra. ring.
      * rewrite sin_neg, sin_PI2, Rabs_left by lra. ring.
      * assert (y = 0) by lra. subst y. rewrite sin_0. ring.
Qed.

(** ** Float literals of the script, as reals *)

Lemma float_1_0 : 1.0 = 1.
Proof. lra. Qed.

Lemma float_0_25 : 0.25 = / 4.
Proof. lra. Qed.

Lemma float_0_0 : 0.0 = 0.
Proof. lra. Qed.

Lemma float_neg_1_0 : -1.0 = -1.
Proof. lra. Qed.

(** ** Each arm's quaternion, on a rotation basis *)

(** Brings a goal about a rotation basis down to its nine scalars. *)
Ltac scalarize Hrot :=
  destruct Hrot as [ux uy uz oxy oyz ozx rh];
  match goal with
  | xa : Vector3D.t, ya : Vector3D.t, za : Vector3D.t |- _ =>
      destruct xa as [m00 m10 m20], ya as [m01 m11 m21], za as [m02 m12 m22]
  end;
  unfold det3, cross, dot in *;
  cbn [Vector3D.x Vector3D.y Vector3D.z] in *.

(** Closes a rational identity over the scalars of a rotation basis. *)
Ltac rotation_field :=
  field_simplify_eq; [ cbn [pow]; nsatz | lra ].

Lemma quat_to_matrix_branch (b : QuatBranch) (xa ya za : Vector3D.t) :
  rotation_basis xa ya za ->
  0 < radicand b xa ya za ->
  quat_to_matrix (branch_quaternion b xa ya za) = basis_matrix xa ya za.
Proof.
  intros Hrot Hpos.
  pose proof (sqrt_lt_R0 _ Hpos) as Hs.
  pose proof (sqrt_sqrt _ (Rlt_le _ _ Hpos)) as Hss.
  scalarize Hrot.
  unfold branch_quaternion, divisor, basis_matrix, quat_to_matrix.
  cbn [Vector3D.x Vector3D.y Vector3D.z].
  set (s := sqrt (radicand b _ _ _)) in *. clearbody s. clear Hpos.
  destruct b; unfold radicand in Hss;
    cbn [Vector3D.x Vector3D.y Vector3D.z] in Hss;
    rewrite ?float_1_0, ?float_0_25 in *;
    f_equal; rotation_field.
Qed.

Lemma quat_norm2_branch (b : QuatBranch) (xa ya za : Vector3D.t) :
  rotation_basis xa ya za ->
  0 < radicand b xa ya za ->
  quat_norm2 (branch_quaternion b xa ya za) = 1.
Proof.
  intros Hrot Hpos.
  pose proof (sqrt_lt_R0 _ Hpos) as Hs.
  pose proof (sqrt_sqrt _ (Rlt_le _ _ Hpos)) as Hss.
  scalarize Hrot.
  unfold branch_quaternion, divisor, quat_norm2.
  cbn [Vector3D.x Vector3D.y Vector3D.z].
  set (s := sqrt (radicand b _ _ _)) in *. clearbody s. clear Hpos.
  destruct b; unfold radicand in Hss;
    cbn [Vector3D.x Vector3D.y Vector3D.z] in Hss;
    rewrite ?float_1_0, ?float_0_25 in *;
    rotation_field.
Qed.

(** ** The branch taken by [_axes_to_euler_zyx] *)

Lemma clamp_m20_bounds (xa : Vector3D.t) : -1 <= clamp_m20 xa <= 1.
Proof.
  unfold clamp_m20. rewrite float_1_0.
  unfold Rmax, Rmin; repeat destruct Rle_dec; lra.
Qed.

Lemma clamp_m20_inside (xa : Vector3D.t) :
  -1 <= Vector3D.z xa <= 1 -> clamp_m20 xa = Vector3D.z xa.
Proof.
  intros H. unfold clamp_m20. rewrite float_1_0.
  unfold Rmax, Rmin; repeat destruct Rle_dec; lra.
Qed.

(** [_axes_to_euler_zyx] returns the tuple of the selected arm. *)
Lemma axes_to_euler_branch (xa ya za : Vector3D.t) :
  _axes_to_euler_zyx xa ya za
  = Ok (branch_euler (euler_branch xa) xa ya za).
Proof.
  pose proof (clamp_m20_bounds xa) as Hc.
  unfold _axes_to_euler_zyx, euler_branch, branch_euler.
  fold (clamp_m20 xa).
  destruct (Rltb_spec (Rabs (clamp_m20 xa)) 1.0).
  - rewrite py_asin_ok by exact Hc. reflexivity.
  - reflexivity.
Qed.

(** ** The regular arm's angles, on a rotation basis *)

Lemma euler_regular_round_trip (xa ya za : Vector3D.t) :
  rotation_basis xa ya za ->
  Rabs (Vector3D.z xa) < 1 ->
  euler_zyx_to_matrix (branch_euler Regular xa ya za) = basis_matrix xa ya za.
Proof.
  intros Hrot Hlt.
  apply Rabs_def2 in Hlt.
  unfold branch_euler.
  rewrite clamp_m20_inside by lra.
  scalarize Hrot.
  set (c := sqrt (1 - m20²)).
  assert (Hc : 0 < c) by (apply sqrt_lt_R0; unfold Rsqr; nra).
  assert (Hcc : c * c = 1 - m20 * m20) by (apply sqrt_sqrt; unfold Rsqr; nra).
  assert (Hrx : sqrt (m22 * m22 + m21 * m21) = c).
  { unfold c. f_equal. unfold Rsqr. nsatz. }
  assert (Hrz : sqrt (m00 * m00 + m10 * m10) = c).
  { unfold c. f_equal. unfold Rsqr. nsatz. }
  pose proof (atan2_cos m21 m22) as Hcx. rewrite Hrx in Hcx.
  pose proof (atan2_sin m21 m22) as Hsx. rewrite Hrx in Hsx.
  pose proof (atan2_cos m10 m00) as Hcz. rewrite Hrz in Hcz.
  pose proof (atan2_sin m10 m00) as Hsz. rewrite Hrz in Hsz.
  assert (Hcy : cos (- asin m20) = c) by (rewrite cos_neg; apply cos_asin; lra).
  assert (Hsy : sin (- asin m20) = - m20)
    by (rewrite sin_neg, sin_asin by lra; reflexivity).
  unfold euler_zyx_to_matrix, mmul, Rx, Ry, Rz, basis_matrix.
  cbn [e00 e01 e02 e10 e11 e12 e20 e21 e22 Vector3D.x Vector3D.y Vector3D.z].
  rewrite Hcy, Hsy.
  generalize dependent (cos (atan2 m21 m22)); intros cx Hcx.
  generalize dependent (sin (atan2 m21 m22)); intros sx Hsx.
  generalize dependent (cos (atan2 m10 m00)); intros cz Hcz.
  generalize dependent (sin (atan2 m10 m00)); intros sz Hsz.
  clearbody c. clear Hrx Hrz Hcy Hsy Hlt.
  assert (Hc2 : c * c <> 0) by nra.
  f_equal; apply (Rmult_eq_reg_l (c * c)); try exact Hc2; nsatz.
Qed.

(** ** The sample bases are rotation bases *)

Ltac unfold_samples :=
  cbv [unit_x unit_y unit_z yaw90_x yaw90_y flip_x flip_y flip_z
       lock_x lock_y lock_z Vector3D.x Vector3D.y Vector3D.z] in *.

Ltac check_basis :=
  constructor; cbv [det3 cross dot]; unfold_samples; ring.

Lemma identity_basis : rotation_basis unit_x unit_y unit_z.
Proof. check_basis. Qed.

Lemma yaw90_basis : rotation_basis yaw90_x yaw90_y unit_z.
Proof. check_basis. Qed.

Lemma half_turn_x_basis : rotation_basis unit_x flip_y flip_z.
Proof. check_basis. Qed.

Lemma half_turn_y_basis : rotation_basis flip_x unit_y flip_z.
Proof. check_basis. Qed.

Lemma half_turn_z_basis : rotation_basis flip_x flip_y unit_z.
Proof. check_basis. Qed.

Lemma lock_basis : rotation_basis lock_x lock_y lock_z.
Proof. check_basis. Qed.

(** Each of the four arms of [_axes_to_quaternion] is reached by a
    rotation basis. *)

Ltac eval_branch :=
  unfold quat_branch; unfold_samples;
  split_guards; try reflexivity; exfalso; lra.

Example identity_takes_trace : quat_branch unit_x unit_y unit_z = TracePositive.
Proof. eval_branch. Qed.

Example half_turn_x_takes_diag00 : quat_branch unit_x flip_y flip_z = Diag00.
Proof. eval_branch. Qed.

Example half_turn_y_takes_diag11 : quat_branch flip_x unit_y flip_z = Diag11.
Proof. eval_branch. Qed.

Example half_turn_z_takes_diag22 : quat_branch flip_x flip_y unit_z = Diag22.
Proof. eval_branch. Qed.

(** * The conversions' properties *)

(** C1. Round trip: on every orthonormal right-handed basis,
    [_axes_to_quaternion] returns a quaternion whose standard rotation
    matrix is exactly the matrix with columns [xAxis], [yAxis], [zAxis]. *)
Theorem quaternion_round_trip (xa ya za : Vector3D.t) :
  rotation_basis xa ya za ->
  exists q : Quaternion,
    _axes_to_quaternion xa ya za = Ok q
    /\ quat_to_matrix q = basis_matrix xa ya za.
Proof.
  intros Hrot.
  exists (branch_quaternion (quat_branch xa ya za) xa ya za). split.
  - apply axes_to_quaternion_branch.
  - apply quat_to_matrix_branch; [exact Hrot | ].
    pose proof (radicand_ge_1 xa ya za); lra.
Qed.

Lemma quaternion_round_trip_witness :
  rotation_basis yaw90_x yaw90_y unit_z
  /\ exists q : Quaternion,
       _axes_to_quaternion yaw90_x yaw90_y unit_z = Ok q
       /\ quat_to_matrix q = basis_matrix yaw90_x yaw90_y unit_z.
Proof.
  split; [exact yaw90_basis | ].
  apply (quaternion_round_trip yaw90_x yaw90_y unit_z); check_basis.
Defined.

(** C2. Unit norm: on every orthonormal right-handed basis, the quaternion
    [(qx, qy, qz, qw)] returned by [_axes_to_quaternion] satisfies
    [qx^2 + qy^2 + qz^2 + qw^2 = 1], whichever arm produced it. *)
Theorem quaternion_unit_norm (xa ya za : Vector3D.t) :
  rotation_basis xa ya za ->
  exists qx qy qz qw : R,
    _axes_to_quaternion xa ya za = Ok (qx, qy, qz, qw)
    /\ qx * qx + qy * qy + qz * qz + qw * qw = 1.
Proof.
  intros Hrot.
  pose proof (radicand_ge_1 xa ya za) as Hr.
  pose proof (quat_norm2_branch (quat_branch xa ya za) xa ya za Hrot
                ltac:(lra)) as Hn.
  rewrite axes_to_quaternion_branch.
  destruct (branch_quaternion _ xa ya za) as [[[qx qy] qz] qw].
  exists qx, qy, qz, qw. split; [reflexivity | exact Hn].
Qed.

Lemma quaternion_unit_norm_witness :
  rotation_basis unit_x flip_y flip_z
  /\ exists qx qy qz qw : R,
       _axes_to_quaternion unit_x flip_y flip_z = Ok (qx, qy, qz, qw)
       /\ qx * qx + qy * qy + qz * qz + qw * qw = 1.
Proof.
  split; [exact half_turn_x_basis | ].
  apply (quaternion_unit_norm unit_x flip_y flip_z); check_basis.
Defined.

(** C3. Euler round trip: on every orthonormal right-handed basis away
    from gimbal lock ([|M20| < 1]), the angles [(rx, ry, rz)] returned by
    [_axes_to_euler_zyx] satisfy [Rz(rz) * Ry(ry) * Rx(rx) = M]. *)
Theorem euler_round_trip (xa ya za : Vector3D.t) :
  rotation_basis xa ya za ->
  Rabs (Vector3D.z xa) < 1 ->
  exists rx ry rz : R,
    _axes_to_euler_zyx xa ya za = Ok (rx, ry, rz)
    /\ mmul (Rz rz) (mmul (Ry ry) (Rx rx)) = basis_matrix xa ya za.
Proof.
  intros Hrot Hlt.
  pose proof (euler_regular_round_trip xa ya za Hrot Hlt) as Hm.
  rewrite axes_to_euler_branch.
  assert (Hb : euler_branch xa = Regular).
  { unfold euler_branch.
    rewrite clamp_m20_inside by (apply Rabs_def2 in Hlt; lra).
    destruct (Rltb_spec (Rabs (Vector3D.z xa)) 1.0) as [_ | Hn];
      [reflexivity | rewrite float_1_0 in Hn; contradiction]. }
  rewrite Hb.
  destruct (branch_euler Regular xa ya za) as [[rx ry] rz].
  exists rx, ry, rz. split; [reflexivity | exact Hm].
Qed.

Lemma euler_round_trip_witness :
  rotation_basis yaw90_x yaw90_y unit_z
  /\ Rabs (Vector3D.z yaw90_x) < 1
  /\ exists rx ry rz : R,
       _axes_to_euler_zyx yaw90_x yaw90_y unit_z = Ok (rx, ry, rz)
       /\ mmul (Rz rz) (mmul (Ry ry) (Rx rx))
          = basis_matrix yaw90_x yaw90_y unit_z.
Proof.
  assert (Hz : Rabs (Vector3D.z yaw90_x) < 1)
    by (unfold_samples; rewrite Rabs_R0; lra).
  split; [exact yaw90_basis | split; [exact Hz | ]].
  apply (euler_round_trip yaw90_x yaw90_y unit_z); [check_basis | exact Hz].
Defined.

(** C4. Totality: on every real-valued input, orthonormal or not, both
    conversions return a value.  In the arm [_axes_to_quaternion] selects,
    the argument of the square root is strictly positive and the divisor
    [S] is not zero, so the power and every division succeed; in
    [_axes_to_euler_zyx] the clamped entry lies in [[-1, 1]], so
    [math.asin] succeeds. *)
Theorem conversions_total (xa ya za : Vector3D.t) :
  (_axes_to_quaternion xa ya za
   = Ok (branch_quaternion (quat_branch xa ya za) xa ya za)
   /\ 0 < radicand (quat_branch xa ya za) xa ya za
   /\ divisor (quat_branch xa ya za) xa ya za <> 0
   /\ py_pow_half (radicand (quat_branch xa ya za) xa ya za)
      = Ok (sqrt (radicand (quat_branch xa ya za) xa ya za))
   /\ forall a : R,
        py_div a (divisor (quat_branch xa ya za) xa ya za)
        = Ok (a / divisor (quat_branch xa ya za) xa ya za))
  /\ (_axes_to_euler_zyx xa ya za
      = Ok (branch_euler (euler_branch xa) xa ya za)
      /\ -1 <= clamp_m20 xa <= 1
      /\ py_asin (clamp_m20 xa) = Ok (asin (clamp_m20 xa))).
Proof.
  pose proof (radicand_ge_1 xa ya za) as Hr.
  pose proof (divisor_ge_2 xa ya za) as Hd.
  pose proof (clamp_m20_bounds xa) as Hc.
  split.
  - split; [apply axes_to_quaternion_branch | ].
    split; [lra | ]. split; [lra | ].
    split; [apply py_pow_half_ok; lra | ].
    intros a. apply py_div_ok. lra.
  - split; [apply axes_to_euler_branch | ].
    split; [exact Hc | apply py_asin_ok; exact Hc].
Qed.

(** C5. With a positive trace [tr = M00 + M11 + M22 > 0],
    [_axes_to_quaternion] returns [qw = S/4], [qx = (M21 - M12)/S],
    [qy = (M02 - M20)/S], [qz = (M10 - M01)/S] with
    [S = 2 * sqrt (tr + 1)]. *)
Theorem quaternion_trace_positive
  (m00 m01 m02 m10 m11 m12 m20 m21 m22 S : R) :
  m00 + m11 + m22 > 0 ->
  S = 2 * sqrt (m00 + m11 + m22 + 1) ->
  _axes_to_quaternion (Vector3D.mk m00 m10 m20) (Vector3D.mk m01 m11 m21)
                      (Vector3D.mk m02 m12 m22)
  = Ok ((m21 - m12) / S, (m02 - m20) / S, (m10 - m01) / S, S / 4).
Proof.
  intros Htr HS.
  rewrite axes_to_quaternion_branch.
  assert (Hb : quat_branch (Vector3D.mk m00 m10 m20) (Vector3D.mk m01 m11 m21)
                           (Vector3D.mk m02 m12 m22) = TracePositive).
  { unfold quat_branch. cbn [Vector3D.x Vector3D.y Vector3D.z].
    destruct (Rgtb_spec (m00 + m11 + m22) 0); [reflexivity | contradiction]. }
  rewrite Hb.
  unfold branch_quaternion, divisor, radicand.
  cbn [Vector3D.x Vector3D.y Vector3D.z].
  rewrite float_1_0, float_0_25.
  replace (sqrt (m00 + m11 + m22 + 1) * 2) with S by (rewrite HS; ring).
  replace (/ 4 * S) with (S / 4) by (unfold Rdiv; ring).
  reflexivity.
Qed.

Lemma quaternion_trace_positive_witness :
  1 + 1 + 1 > 0
  /\ _axes_to_quaternion (Vector3D.mk 1 0 0) (Vector3D.mk 0 1 0)
                         (Vector3D.mk 0 0 1)
     = Ok ((0 - 0) / (2 * sqrt (1 + 1 + 1 + 1)),
           (0 - 0) / (2 * sqrt (1 + 1 + 1 + 1)),
           (0 - 0) / (2 * sqrt (1 + 1 + 1 + 1)),
           (2 * sqrt (1 + 1 + 1 + 1)) / 4).
Proof.
  split; [lra | ].
  apply (quaternion_trace_positive 1 0 0 0 1 0 0 0 1
           (2 * sqrt (1 + 1 + 1 + 1))); [lra | reflexivity].
Defined.

(** C6. With a trace [tr <= 0], the arm [_axes_to_quaternion] takes is
    keyed on a maximal diagonal entry: the [M00] arm only when
    [M00 >= M11] and [M00 >= M22], the [M11] arm only when [M11 >= M00]
    and [M11 >= M22], the [M22] arm only when [M22 >= M00] and
    [M22 >= M11]. *)
Theorem diagonal_branch_maximal (m00 m01 m02 m10 m11 m12 m20 m21 m22 : R) :
  m00 + m11 + m22 <= 0 ->
  _axes_to_quaternion (Vector3D.mk m00 m10 m20) (Vector3D.mk m01 m11 m21)
                      (Vector3D.mk m02 m12 m22)
  = Ok (branch_quaternion
          (quat_branch (Vector3D.mk m00 m10 m20) (Vector3D.mk m01 m11 m21)
                       (Vector3D.mk m02 m12 m22))
          (Vector3D.mk m00 m10 m20) (Vector3D.mk m01 m11 m21)
          (Vector3D.mk m02 m12 m22))
  /\ match quat_branch (Vector3D.mk m00 m10 m20) (Vector3D.mk m01 m11 m21)
                       (Vector3D.mk m02 m12 m22) with
     | TracePositive => False
     | Diag00 => m00 >= m11 /\ m00 >= m22
     | Diag11 => m11 >= m00 /\ m11 >= m22
     | Diag22 => m22 >= m00 /\ m22 >= m11
     end.
Proof.
  intros Htr. split; [apply axes_to_quaternion_branch | ].
  unfold quat_branch. cbn [Vector3D.x Vector3D.y Vector3D.z].
  split_guards; lra.
Qed.

Lemma diagonal_branch_maximal_witness :
  -1 + 1 + -1 <= 0
  /\ _axes_to_quaternion (Vector3D.mk (-1) 0 0) (Vector3D.mk 0 1 0)
                         (Vector3D.mk 0 0 (-1))
     = Ok (branch_quaternion
             (quat_branch (Vector3D.mk (-1) 0 0) (Vector3D.mk 0 1 0)
                          (Vector3D.mk 0 0 (-1)))
             (Vector3D.mk (-1) 0 0) (Vector3D.mk 0 1 0)
             (Vector3D.mk 0 0 (-1)))
  /\ match quat_branch (Vector3D.mk (-1) 0 0) (Vector3D.mk 0 1 0)
                       (Vector3D.mk 0 0 (-1)) with
     | TracePositive => False
     | Diag00 => -1 >= 1 /\ -1 >= -1
     | Diag11 => 1 >= -1 /\ 1 >= -1
     | Diag22 => -1 >= -1 /\ -1 >= 1
     end.
Proof.
  split; [lra | ].
  apply (diagonal_branch_maximal (-1) 0 0 0 1 0 0 0 (-1)). lra.
Defined.

(** Evaluates a clamp or an absolute value at given numbers. *)
Ltac eval_clamp :=
  unfold Rabs, Rmax, Rmin;
  repeat (destruct Rle_dec || destruct Rcase_abs); lra.

(** C7. When the clamped entry [M20c = clamp(M20, -1, 1)] has
    [|M20c| < 1], [_axes_to_euler_zyx] returns [ry = - asin M20c],
    [rx = atan2(M21, M22)], [rz = atan2(M10, M00)]. *)
Theorem euler_regular_angles (m00 m01 m02 m10 m11 m12 m20 m21 m22 : R) :
  Rabs (Rmax (-1) (Rmin 1 m20)) < 1 ->
  _axes_to_euler_zyx (Vector3D.mk m00 m10 m20) (Vector3D.mk m01 m11 m21)
                     (Vector3D.mk m02 m12 m22)
  = Ok (atan2 m21 m22, - asin (Rmax (-1) (Rmin 1 m20)), atan2 m10 m00).
Proof.
  intros Hlt.
  rewrite axes_to_euler_branch.
  unfold euler_branch, branch_euler, clamp_m20.
  cbn [Vector3D.x Vector3D.y Vector3D.z].
  rewrite !float_1_0, !float_neg_1_0.
  destruct (Rltb_spec (Rabs (Rmax (-1) (Rmin 1 m20))) 1);
    [reflexivity | contradiction].
Qed.

Lemma euler_regular_angles_witness :
  Rabs (Rmax (-1) (Rmin 1 (1 / 2))) < 1
  /\ _axes_to_euler_zyx (Vector3D.mk 1 2 (1 / 2)) (Vector3D.mk 3 4 5)
                        (Vector3D.mk 6 7 8)
     = Ok (atan2 5 8, - asin (Rmax (-1) (Rmin 1 (1 / 2))), atan2 2 1).
Proof.
  assert (H : Rabs (Rmax (-1) (Rmin 1 (1 / 2))) < 1) by eval_clamp.
  split; [exact H | ].
  apply (euler_regular_angles 1 3 6 2 4 7 (1 / 2) 5 8 H).
Defined.

(** C8. When the clamped entry has [|M20c| = 1] (gimbal lock),
    [_axes_to_euler_zyx] returns [ry = +pi/2] if [M20c <= -1] and
    [ry = -pi/2] otherwise, [rz = 0], and [rx = atan2(-M01, M11)]. *)
Theorem euler_gimbal_lock_angles (m00 m01 m02 m10 m11 m12 m20 m21 m22 : R) :
  Rabs (Rmax (-1) (Rmin 1 m20)) = 1 ->
  _axes_to_euler_zyx (Vector3D.mk m00 m10 m20) (Vector3D.mk m01 m11 m21)
                     (Vector3D.mk m02 m12 m22)
  = Ok (atan2 (- m01) m11,
        if Rle_dec (Rmax (-1) (Rmin 1 m20)) (-1) then PI / 2 else - (PI / 2),
        0).
Proof.
  intros Heq.
  rewrite axes_to_euler_branch.
  unfold euler_branch, branch_euler, clamp_m20.
  cbn [Vector3D.x Vector3D.y Vector3D.z].
  rewrite !float_1_0, !float_neg_1_0, float_0_0.
  destruct (Rltb_spec (Rabs (Rmax (-1) (Rmin 1 m20))) 1) as [Hlt | _];
    [lra | ].
  unfold Rleb. destruct (Rle_dec (Rmax (-1) (Rmin 1 m20)) (-1));
    [reflexivity | ].
  replace (- PI / 2) with (- (PI / 2)) by (unfold Rdiv; ring).
  reflexivity.
Qed.

Lemma euler_gimbal_lock_angles_witness :
  Rabs (Rmax (-1) (Rmin 1 3)) = 1
  /\ _axes_to_euler_zyx (Vector3D.mk 1 2 3) (Vector3D.mk 4 5 6)
                        (Vector3D.mk 7 8 9)
     = Ok (atan2 (- 4) 5,
           if Rle_dec (Rmax (-1) (Rmin 1 3)) (-1) then PI / 2 else - (PI / 2),
           0).
Proof.
  assert (H : Rabs (Rmax (-1) (Rmin 1 3)) = 1) by eval_clamp.
  split; [exact H | ].
  apply (euler_gimbal_lock_angles 1 4 7 2 5 8 3 6 9 H).
Defined.

(** ** The frame [xAxis = (0,0,-1)], [yAxis = (0,1,0)], [zAxis = (1,0,0)] *)

Lemma lock_sample_clamp : clamp_m20 lock_x = -1.
Proof.
  unfold clamp_m20. unfold_samples. rewrite float_1_0, float_neg_1_0.
  eval_clamp.
Qed.

Lemma lock_sample_branch : euler_branch lock_x = GimbalLock.
Proof.
  unfold euler_branch. rewrite lock_sample_clamp, float_1_0.
  destruct (Rltb_spec (Rabs (-1)) 1) as [Hlt | _]; [ | reflexivity].
  exfalso. revert Hlt. eval_clamp.
Qed.

Lemma lock_sample_euler :
  _axes_to_euler_zyx lock_x lock_y lock_z = Ok (0, PI / 2, 0).
Proof.
  rewrite axes_to_euler_branch, lock_sample_branch.
  unfold branch_euler. rewrite lock_sample_clamp, float_neg_1_0, float_0_0.
  unfold_samples.
  destruct (Rleb_spec (-1) (-1)) as [_ | Hn]; [ | exfalso; lra].
  unfold atan2. destruct (Rlt_dec 0 1) as [_ | Hn]; [ | exfalso; lra].
  replace (- 0 / 1) with 0 by field.
  rewrite atan_0. reflexivity.
Qed.

(** The returned angles do reproduce this frame. *)
Example lock_sample_round_trip :
  euler_zyx_to_matrix (0, PI / 2, 0) = basis_matrix lock_x lock_y lock_z.
Proof.
  unfold euler_zyx_to_matrix, mmul, Rx, Ry, Rz, basis_matrix.
  unfold_samples. cbn [e00 e01 e02 e10 e11 e12 e20 e21 e22].
  rewrite cos_0, sin_0, cos_PI2, sin_PI2.
  f_equal; ring.
Qed.

(** C9, as stated, fails: on the frame [xAxis = (0,0,-1)],
    [yAxis = (0,1,0)], [zAxis = (1,0,0)] the gimbal-lock arm does not
    return [ry = -pi/2]. *)
Lemma lock_sample_pitch_not_negative :
  ~ (euler_branch lock_x = GimbalLock
     /\ exists rx : R,
          _axes_to_euler_zyx lock_x lock_y lock_z = Ok (rx, - (PI / 2), 0)).
Proof.
  intros [_ [rx H]].
  rewrite lock_sample_euler in H.
  injection H as _ Hpitch.
  pose proof PI_RGT_0. lra.
Qed.

(** C9, amended. On the frame [xAxis = (0,0,-1)], [yAxis = (0,1,0)],
    [zAxis = (1,0,0)], where [M20 = -1], [_axes_to_euler_zyx] takes the
    gimbal-lock arm with no domain error and returns [ry = +pi/2] and
    [rz = 0]. *)
Theorem lock_sample_pitch_positive :
  euler_branch lock_x = GimbalLock
  /\ exists rx : R,
       _axes_to_euler_zyx lock_x lock_y lock_z = Ok (rx, PI / 2, 0).
Proof.
  split; [exact lock_sample_branch | ].
  exists 0. exact lock_sample_euler.
Qed.

(** C10. On every real-valued input, the pitch [ry] returned by
    [_axes_to_euler_zyx] lies in [[-pi/2, pi/2]], and [|ry| = pi/2]
    exactly when the gimbal-lock arm is taken. *)
Theorem euler_pitch_range (xa ya za : Vector3D.t) :
  exists rx ry rz : R,
    _axes_to_euler_zyx xa ya za = Ok (rx, ry, rz)
    /\ - (PI / 2) <= ry <= PI / 2
    /\ (Rabs ry = PI / 2 <-> euler_branch xa = GimbalLock).
Proof.
  pose proof PI_RGT_0 as Hpi.
  rewrite axes_to_euler_branch.
  unfold euler_branch, branch_euler.
  destruct (Rltb_spec (Rabs (clamp_m20 xa)) 1.0) as [Hlt | Hge].
  - rewrite float_1_0 in Hlt. apply Rabs_def2 in Hlt.
    pose proof (asin_bound_lt (clamp_m20 xa) ltac:(lra)) as Hb.
    eexists _, _, _. split; [reflexivity | ].
    split; [lra | ].
    split; [ | discriminate].
    intros Habs. exfalso. revert Habs.
    unfold Rabs. destruct Rcase_abs; lra.
  - eexists _, _, _. split; [reflexivity | ].
    destruct (Rleb (clamp_m20 xa) (-1.0)).
    + split; [lra | ]. split; [reflexivity | ].
      intros _. apply Rabs_pos_eq. lra.
    + split; [lra | ]. split; [reflexivity | ].
      intros _. unfold Rabs. destruct Rcase_abs; lra.
Qed.

(** * Further properties of the conversions *)

(** ** The range of [atan2] and its polar inverse *)


Lemma atan_scaled_tan (t r : R) :
  - (PI / 2) < t < PI / 2 -> 0 < r ->
  atan ((r * sin t) / (r * cos t)) = t.
Proof.
  intros Ht Hr.
  assert (Hc : 0 < cos t) by (apply cos_gt_0; lra).
  replace ((r * sin t) / (r * cos t)) with (tan t)
    by (unfold tan; field; lra).
  apply atan_tan. exact Ht.
Qed.

Lemma atan2_polar (t r : R) :
  - PI < t <= PI -> 0 < r -> atan2 (r * sin t) (r * cos t) = t.
Proof.
  intros Ht Hr.
  pose proof PI_RGT_0 as Hpi.
  destruct (Rtotal_order t (- (PI / 2))) as [Hlo | [Hlo | Hlo]].
  - set (u := t + PI).
    assert (Hu : - (PI / 2) < u < PI / 2) by (unfold u; lra).
    assert (Hu0 : 0 < u) by (unfold u; lra).
    assert (Hc : 0 < cos u) by (apply cos_gt_0; lra).
    assert (Hs : 0 < sin u) by (apply sin_gt_0; lra).
    assert (Hct : cos t = - cos u) by (unfold u; rewrite neg_cos; ring).
    assert (Hst : sin t = - sin u) by (unfold u; rewrite neg_sin; ring).
    unfold atan2. rewrite Hct, Hst.
    destruct (Rlt_dec 0 (r * - cos u)); [nra | ].
    destruct (Rlt_dec (r * - cos u) 0); [ | nra].
    destruct (Rle_dec 0 (r * - sin u)); [nra | ].
    replace (r * - sin u / (r * - cos u)) with (r * sin u / (r * cos u))
      by (field; lra).
    rewrite atan_scaled_tan by assumption. unfold u. ring.
  - subst t. unfold atan2. rewrite cos_neg, sin_neg, cos_PI2, sin_PI2.
    repeat destruct Rlt_dec; try reflexivity; exfalso; lra.
  - destruct (Rtotal_order t (PI / 2)) as [Hhi | [Hhi | Hhi]].
    + assert (Hc : 0 < cos t) by (apply cos_gt_0; lra).
      unfold atan2.
      destruct (Rlt_dec 0 (r * cos t)); [ | nra].
      apply atan_scaled_tan; lra.
    + subst t. unfold atan2. rewrite cos_PI2, sin_PI2.
      repeat destruct Rlt_dec; try reflexivity; exfalso; lra.
    + set (u := t - PI).
      assert (Hu : - (PI / 2) < u < PI / 2) by (unfold u; lra).
      assert (Hu0 : u <= 0) by (unfold u; lra).
      assert (Hc : 0 < cos u) by (apply cos_gt_0; lra).
      assert (Hs : sin u <= 0).
      { destruct Hu0 as [Hu0 | Hu0].
        - left. apply sin_lt_0_var; lra.
        - rewrite Hu0, sin_0. lra. }
      assert (Hct : cos t = - cos u)
        by (replace t with (u + PI) by (unfold u; ring); apply neg_cos).
      assert (Hst : sin t = - sin u)
        by (replace t with (u + PI) by (unfold u; ring); apply neg_sin).
      unfold atan2. rewrite Hct, Hst.
      destruct (Rlt_dec 0 (r * - cos u)); [nra | ].
      destruct (Rlt_dec (r * - cos u) 0); [ | nra].
      destruct (Rle_dec 0 (r * - sin u)); [ | nra].
      replace (r * - sin u / (r * - cos u)) with (r * sin u / (r * cos u))
        by (field; lra).
      rewrite atan_scaled_tan by assumption. unfold u. ring.
Qed.

(** ** Quaternions with the same matrix *)

Lemma pivot_sign (p p' a a' b b' c c' : R) :
  p' <> 0 -> p * p = p' * p' ->
  a * p = a' * p' -> b * p = b' * p' -> c * p = c' * p' ->
  (a = a' /\ b = b' /\ c = c' /\ p = p')
  \/ (a = - a' /\ b = - b' /\ c = - c' /\ p = - p').
Proof.
  intros Hp Hpp Ha Hb Hc.
  assert (Hcase : p = p' \/ p = - p').
  { assert (H0 : (p - p') * (p + p') = 0) by (ring_simplify; nra).
    apply Rmult_integral in H0. destruct H0; [left | right]; lra. }
  destruct Hcase as [-> | ->]; [left | right]; repeat split;
    try reflexivity;
    apply (Rmult_eq_reg_r p'); try assumption; nra.
Qed.

Lemma quat_to_matrix_unique (q q' : Quaternion) :
  quat_norm2 q = 1 -> quat_norm2 q' = 1 ->
  quat_to_matrix q = quat_to_matrix q' ->
  q = q' \/ q = quat_neg q'.
Proof.
  destruct q as [[[x y] z] w], q' as [[[x' y'] z'] w'].
  unfold quat_norm2, quat_to_matrix, quat_neg.
  intros Hn Hn' HM.
  injection HM as H00 H01 H02 H10 H11 H12 H20 H21 H22.
  assert (Hxx : x * x = x' * x') by lra.
  assert (Hyy : y * y = y' * y') by lra.
  assert (Hzz : z * z = z' * z') by lra.
  assert (Hww : w * w = w' * w') by lra.
  assert (Hxy : x * y = x' * y') by lra.
  assert (Hxz : x * z = x' * z') by lra.
  assert (Hyz : y * z = y' * z') by lra.
  assert (Hxw : x * w = x' * w') by lra.
  assert (Hyw : y * w = y' * w') by lra.
  assert (Hzw : z * w = z' * w') by lra.
  destruct (Req_dec w' 0) as [Hw0 | Hw0].
  - destruct (Req_dec z' 0) as [Hz0 | Hz0].
    + destruct (Req_dec y' 0) as [Hy0 | Hy0].
      * assert (Hx0 : x' <> 0) by (intros ->; subst; lra).
        destruct (pivot_sign x x' y y' z z' w w' Hx0 Hxx) as [H | H];
          try lra; destruct H as (-> & -> & -> & ->); [left | right];
          reflexivity.
      * destruct (pivot_sign y y' x x' z z' w w' Hy0 Hyy) as [H | H];
          try lra; destruct H as (-> & -> & -> & ->); [left | right];
          reflexivity.
    + destruct (pivot_sign z z' x x' y y' w w' Hz0 Hzz) as [H | H];
        try lra; destruct H as (-> & -> & -> & ->); [left | right];
        reflexivity.
  - destruct (pivot_sign w w' x x' y y' z z' Hw0 Hww) as [H | H];
      try lra; destruct H as (-> & -> & -> & ->); [left | right];
      reflexivity.
Qed.

Lemma basis_matrix_columns (M : Mat3) :
  basis_matrix (column0 M) (column1 M) (column2 M) = M.
Proof. destruct M; reflexivity. Qed.

Lemma quat_matrix_rotation_basis (q : Quaternion) :
  quat_norm2 q = 1 ->
  rotation_basis (column0 (quat_to_matrix q)) (column1 (quat_to_matrix q))
                 (column2 (quat_to_matrix q)).
Proof.
  destruct q as [[[x y] z] w]. unfold quat_norm2. intros Hn.
  constructor;
    unfold det3, cross, dot, column0, column1, column2, quat_to_matrix;
    cbn [Vector3D.x Vector3D.y Vector3D.z e00 e01 e02 e10 e11 e12 e20 e21 e22];
    nsatz.
Qed.

Lemma radicand_pos (xa ya za : Vector3D.t) :
  0 < radicand (quat_branch xa ya za) xa ya za.
Proof. pose proof (radicand_ge_1 xa ya za); lra. Qed.

(** X1. On an orthonormal right-handed basis, every unit quaternion whose
    standard rotation matrix is the basis matrix is the quaternion
    [_axes_to_quaternion] returns, or its negation. *)
Theorem quaternion_unique_up_to_sign (xa ya za : Vector3D.t) (q' : Quaternion) :
  rotation_basis xa ya za ->
  quat_norm2 q' = 1 ->
  quat_to_matrix q' = basis_matrix xa ya za ->
  _axes_to_quaternion xa ya za = Ok q'
  \/ _axes_to_quaternion xa ya za = Ok (quat_neg q').
Proof.
  intros Hrot Hn HM.
  rewrite axes_to_quaternion_branch.
  pose proof (radicand_pos xa ya za) as Hr.
  destruct (quat_to_matrix_unique
              (branch_quaternion (quat_branch xa ya za) xa ya za) q')
    as [H | H].
  - apply quat_norm2_branch; assumption.
  - exact Hn.
  - rewrite HM. apply quat_to_matrix_branch; assumption.
  - left. rewrite H. reflexivity.
  - right. rewrite H. reflexivity.
Qed.

Lemma quaternion_unique_up_to_sign_witness :
  rotation_basis unit_x unit_y unit_z
  /\ quat_norm2 (0, 0, 0, -1) = 1
  /\ quat_to_matrix (0, 0, 0, -1) = basis_matrix unit_x unit_y unit_z
  /\ (_axes_to_quaternion unit_x unit_y unit_z = Ok (0, 0, 0, -1)
      \/ _axes_to_quaternion unit_x unit_y unit_z
         = Ok (quat_neg (0, 0, 0, -1))).
Proof.
  assert (Hn : quat_norm2 (0, 0, 0, -1) = 1) by (unfold quat_norm2; ring).
  assert (HM : quat_to_matrix (0, 0, 0, -1)
               = basis_matrix unit_x unit_y unit_z).
  { unfold quat_to_matrix, basis_matrix. unfold_samples. f_equal; ring. }
  split; [exact identity_basis | split; [exact Hn | split; [exact HM | ]]].
  apply (quaternion_unique_up_to_sign unit_x unit_y unit_z (0, 0, 0, -1)
           identity_basis Hn HM).
Defined.

(** X2. For every unit quaternion [q], [_axes_to_quaternion] applied to
    the columns of the rotation matrix of [q] returns [q] or [-q]. *)
Theorem quaternion_of_its_matrix (q : Quaternion) :
  quat_norm2 q = 1 ->
  _axes_to_quaternion (column0 (quat_to_matrix q)) (column1 (quat_to_matrix q))
                      (column2 (quat_to_matrix q)) = Ok q
  \/ _axes_to_quaternion (column0 (quat_to_matrix q))
                         (column1 (quat_to_matrix q))
                         (column2 (quat_to_matrix q)) = Ok (quat_neg q).
Proof.
  intros Hn.
  rewrite axes_to_quaternion_branch.
  pose proof (quat_matrix_rotation_basis q Hn) as Hrot.
  pose proof (radicand_pos (column0 (quat_to_matrix q))
                (column1 (quat_to_matrix q)) (column2 (quat_to_matrix q))) as Hr.
  destruct (quat_to_matrix_unique
              (branch_quaternion
                 (quat_branch (column0 (quat_to_matrix q))
                    (column1 (quat_to_matrix q)) (column2 (quat_to_matrix q)))
                 (column0 (quat_to_matrix q)) (column1 (quat_to_matrix q))
                 (column2 (quat_to_matrix q))) q)
    as [H | H].
  - apply quat_norm2_branch; assumption.
  - exact Hn.
  - rewrite quat_to_matrix_branch by assumption. apply basis_matrix_columns.
  - left. rewrite H. reflexivity.
  - right. rewrite H. reflexivity.
Qed.

Lemma quaternion_of_its_matrix_witness :
  quat_norm2 (1, 0, 0, 0) = 1
  /\ (_axes_to_quaternion (column0 (quat_to_matrix (1, 0, 0, 0)))
                          (column1 (quat_to_matrix (1, 0, 0, 0)))
                          (column2 (quat_to_matrix (1, 0, 0, 0)))
      = Ok (1, 0, 0, 0)
      \/ _axes_to_quaternion (column0 (quat_to_matrix (1, 0, 0, 0)))
                             (column1 (quat_to_matrix (1, 0, 0, 0)))
                             (column2 (quat_to_matrix (1, 0, 0, 0)))
         = Ok (quat_neg (1, 0, 0, 0))).
Proof.
  assert (Hn : quat_norm2 (1, 0, 0, 0) = 1) by (unfold quat_norm2; ring).
  split; [exact Hn | ].
  apply (quaternion_of_its_matrix (1, 0, 0, 0) Hn).
Defined.

(** X3. On every input, the transposed matrix takes the same arm, and its
    quaternion is the conjugate of the original one when the trace is
    positive and the negated conjugate otherwise. *)
Theorem quaternion_of_transpose (xa ya za : Vector3D.t) :
  quat_branch (row0 (basis_matrix xa ya za)) (row1 (basis_matrix xa ya za))
              (row2 (basis_matrix xa ya za))
  = quat_branch xa ya za
  /\ exists q : Quaternion,
       _axes_to_quaternion xa ya za = Ok q
       /\ _axes_to_quaternion (row0 (basis_matrix xa ya za))
                              (row1 (basis_matrix xa ya za))
                              (row2 (basis_matrix xa ya za))
          = Ok (match quat_branch xa ya za with
                | TracePositive => quat_conj q
                | _ => quat_neg (quat_conj q)
                end).
Proof.
  split; [reflexivity | ].
  eexists. split; [apply axes_to_quaternion_branch | ].
  rewrite axes_to_quaternion_branch.
  destruct xa as [m00 m10 m20], ya as [m01 m11 m21], za as [m02 m12 m22].
  unfold quat_branch, branch_quaternion, divisor, radicand,
    row0, row1, row2, basis_matrix, quat_conj, quat_neg.
  cbn [e00 e01 e02 e10 e11 e12 e20 e21 e22 Vector3D.x Vector3D.y Vector3D.z].
  split_guards; repeat f_equal; unfold Rdiv; ring.
Qed.

(** X4. On every input, the component the selected arm computes as
    [0.25 * S] is at least 1/2: [qw > 1/2] when the trace is positive,
    otherwise [qx], [qy] or [qz] according to the arm. *)
Theorem quaternion_dominant_component (xa ya za : Vector3D.t) :
  exists qx qy qz qw : R,
    _axes_to_quaternion xa ya za = Ok (qx, qy, qz, qw)
    /\ match quat_branch xa ya za with
       | TracePositive => 1 / 2 < qw
       | Diag00 => 1 / 2 <= qx
       | Diag11 => 1 / 2 <= qy
       | Diag22 => 1 / 2 <= qz
       end.
Proof.
  rewrite axes_to_quaternion_branch.
  pose proof (divisor_ge_2 xa ya za) as Hd.
  assert (Ht : quat_branch xa ya za = TracePositive ->
               2 < divisor TracePositive xa ya za).
  { unfold quat_branch, divisor, radicand.
    destruct (Rgtb_spec (Vector3D.x xa + Vector3D.y ya + Vector3D.z za) 0)
      as [Htr | Htr].
    - intros _. rewrite float_1_0.
      assert (H1 : 1 < sqrt (Vector3D.x xa + Vector3D.y ya + Vector3D.z za + 1)).
      { rewrite <- sqrt_1 at 1. apply sqrt_lt_1_alt. lra. }
      lra.
    - destruct (_ && _); [discriminate | ].
      destruct (Rgtb _ _); discriminate. }
  destruct (quat_branch xa ya za); unfold branch_quaternion;
    eexists _, _, _, _; (split; [reflexivity | ]);
    rewrite float_0_25; try specialize (Ht eq_refl); lra.
Qed.


Lemma sin_inside (b : R) : - (PI / 2) < b < PI / 2 -> -1 < sin b < 1.
Proof.
  intros Hb.
  assert (Hc : 0 < cos b) by (apply cos_gt_0; lra).
  pose proof (sin2_cos2 b) as H. unfold Rsqr in H.
  split; nra.
Qed.

Lemma euler_zyx_matrix_entries (a b c : R) :
  euler_zyx_to_matrix (a, b, c)
  = mkMat3
      (cos b * cos c) (cos c * sin b * sin a - sin c * cos a)
      (cos c * sin b * cos a + sin c * sin a)
      (cos b * sin c) (sin c * sin b * sin a + cos c * cos a)
      (sin c * sin b * cos a - cos c * sin a)
      (- sin b) (cos b * sin a) (cos b * cos a).
Proof.
  unfold euler_zyx_to_matrix, mmul, Rx, Ry, Rz.
  cbn [e00 e01 e02 e10 e11 e12 e20 e21 e22].
  f_equal; ring.
Qed.

(** X6. For a roll [a] and a yaw [c] in [(-pi, pi]] and a pitch [b] in
    [(-pi/2, pi/2)], [_axes_to_euler_zyx] applied to the columns of
    [Rz(c) * Ry(b) * Rx(a)] returns exactly [(a, b, c)]. *)
Theorem euler_of_composed_rotation (a b c : R) :
  - PI < a <= PI ->
  - (PI / 2) < b < PI / 2 ->
  - PI < c <= PI ->
  _axes_to_euler_zyx (column0 (euler_zyx_to_matrix (a, b, c)))
                     (column1 (euler_zyx_to_matrix (a, b, c)))
                     (column2 (euler_zyx_to_matrix (a, b, c)))
  = Ok (a, b, c).
Proof.
  intros Ha Hb Hc.
  pose proof (sin_inside b Hb) as Hs.
  assert (Hcb : 0 < cos b) by (apply cos_gt_0; lra).
  rewrite axes_to_euler_branch, euler_zyx_matrix_entries.
  unfold euler_branch, branch_euler, clamp_m20, column0, column1, column2.
  cbn [e00 e01 e02 e10 e11 e12 e20 e21 e22 Vector3D.x Vector3D.y Vector3D.z].
  rewrite float_1_0, float_neg_1_0.
  replace (Rmax (-1) (Rmin 1 (- sin b))) with (- sin b)
    by (unfold Rmax, Rmin; repeat destruct Rle_dec; lra).
  destruct (Rltb_spec (Rabs (- sin b)) 1) as [_ | Hn].
  - rewrite asin_opp, Ropp_involutive, asin_sin by lra.
    rewrite !atan2_polar by assumption.
    reflexivity.
  - exfalso. apply Hn. apply Rabs_def1; lra.
Qed.

Lemma euler_of_composed_rotation_witness :
  - PI < 0 <= PI
  /\ - (PI / 2) < 0 < PI / 2
  /\ - PI < PI / 2 <= PI
  /\ _axes_to_euler_zyx (column0 (euler_zyx_to_matrix (0, 0, PI / 2)))
                        (column1 (euler_zyx_to_matrix (0, 0, PI / 2)))
                        (column2 (euler_zyx_to_matrix (0, 0, PI / 2)))
     = Ok (0, 0, PI / 2).
Proof.
  pose proof PI_RGT_0 as Hpi.
  assert (Ha : - PI < 0 <= PI) by lra.
  assert (Hb : - (PI / 2) < 0 < PI / 2) by lra.
  assert (Hc : - PI < PI / 2 <= PI) by lra.
  split; [exact Ha | split; [exact Hb | split; [exact Hc | ]]].
  apply (euler_of_composed_rotation 0 0 (PI / 2) Ha Hb Hc).
Defined.

(** ** The gimbal-lock arm, on a rotation basis *)

(** At gimbal lock the first column is [(0, 0, +-1)], and the roll angle
    of the gimbal-lock arm has cosine [M11] and sine [- M01]. *)
Lemma gimbal_roll (xa ya za : Vector3D.t) :
  rotation_basis xa ya za ->
  Vector3D.z xa * Vector3D.z xa = 1 ->
  Vector3D.x xa = 0 /\ Vector3D.y xa = 0
  /\ Vector3D.z ya = 0 /\ Vector3D.z za = 0
  /\ Vector3D.x za = - Vector3D.z xa * Vector3D.y ya
  /\ Vector3D.y za = Vector3D.z xa * Vector3D.x ya
  /\ cos (atan2 (- Vector3D.x ya) (Vector3D.y ya)) = Vector3D.y ya
  /\ sin (atan2 (- Vector3D.x ya) (Vector3D.y ya)) = - Vector3D.x ya.
Proof.
  intros Hrot Hz.
  scalarize Hrot.
  assert (H00 : m00 = 0) by nra.
  assert (H10 : m10 = 0) by nra.
  subst m00 m10.
  assert (H21 : m21 = 0) by nra.
  assert (H22 : m22 = 0) by nra.
  subst m21 m22.
  assert (H02 : m02 = - m20 * m11) by nsatz.
  assert (H12 : m12 = m20 * m01) by nsatz.
  assert (Hr : sqrt (m11 * m11 + - m01 * - m01) = 1).
  { replace (m11 * m11 + - m01 * - m01) with 1 by lra. apply sqrt_1. }
  pose proof (atan2_cos (- m01) m11) as Hc. rewrite Hr in Hc.
  pose proof (atan2_sin (- m01) m11) as Hs. rewrite Hr in Hs.
  repeat split; try assumption; try reflexivity; lra.
Qed.

Lemma clamp_m20_plus (xa : Vector3D.t) :
  Vector3D.z xa = 1 -> clamp_m20 xa = 1.
Proof.
  intros H. unfold clamp_m20. rewrite H, float_1_0, float_neg_1_0.
  unfold Rmax, Rmin; repeat destruct Rle_dec; lra.
Qed.

Lemma clamp_m20_minus (xa : Vector3D.t) :
  Vector3D.z xa = -1 -> clamp_m20 xa = -1.
Proof.
  intros H. unfold clamp_m20. rewrite H, float_1_0, float_neg_1_0.
  unfold Rmax, Rmin; repeat destruct Rle_dec; lra.
Qed.

Lemma euler_branch_locked (xa : Vector3D.t) :
  Rabs (clamp_m20 xa) = 1 -> euler_branch xa = GimbalLock.
Proof.
  intros H. unfold euler_branch. rewrite H, float_1_0.
  destruct (Rltb_spec 1 1); [lra | reflexivity].
Qed.

Lemma euler_branch_plus (xa : Vector3D.t) :
  Vector3D.z xa = 1 -> euler_branch xa = GimbalLock.
Proof.
  intros Hz. apply euler_branch_locked.
  rewrite clamp_m20_plus by exact Hz. apply Rabs_R1.
Qed.

Lemma euler_branch_minus (xa : Vector3D.t) :
  Vector3D.z xa = -1 -> euler_branch xa = GimbalLock.
Proof.
  intros Hz. apply euler_branch_locked.
  rewrite clamp_m20_minus by exact Hz.
  unfold Rabs. destruct Rcase_abs; lra.
Qed.

Lemma euler_branch_regular (xa : Vector3D.t) :
  -1 < Vector3D.z xa < 1 -> euler_branch xa = Regular.
Proof.
  intros Hz. unfold euler_branch.
  rewrite clamp_m20_inside, float_1_0 by lra.
  destruct (Rltb_spec (Rabs (Vector3D.z xa)) 1) as [_ | Hn];
    [reflexivity | ].
  exfalso. apply Hn. apply Rabs_def1; lra.
Qed.

Lemma half_pi_neg : - PI / 2 = - (PI / 2).
Proof. unfold Rdiv; ring. Qed.

(** With [M20 = 1] the gimbal-lock angles compose to the basis matrix. *)
Lemma gimbal_plus_matrix (xa ya za : Vector3D.t) :
  rotation_basis xa ya za ->
  Vector3D.z xa = 1 ->
  euler_zyx_to_matrix (branch_euler GimbalLock xa ya za)
  = basis_matrix xa ya za.
Proof.
  intros Hrot Hz.
  destruct (gimbal_roll xa ya za Hrot ltac:(rewrite Hz; ring))
    as (H00 & H10 & H21 & H22 & H02 & H12 & Hc & Hs).
  unfold branch_euler. rewrite clamp_m20_plus by exact Hz.
  rewrite float_neg_1_0, float_0_0.
  destruct (Rleb_spec 1 (-1)) as [Hbad | _]; [exfalso; lra | ].
  unfold euler_zyx_to_matrix, mmul, Rx, Ry, Rz, basis_matrix.
  cbn [e00 e01 e02 e10 e11 e12 e20 e21 e22].
  rewrite Hc, Hs, half_pi_neg, cos_neg, sin_neg, cos_PI2, sin_PI2, cos_0, sin_0.
  rewrite H00, H10, H21, H22, H02, H12, Hz.
  f_equal; ring.
Qed.

(** With [M20 = -1] they do so exactly when [M01 = 0]. *)
Lemma gimbal_minus_matrix (xa ya za : Vector3D.t) :
  rotation_basis xa ya za ->
  Vector3D.z xa = -1 ->
  (euler_zyx_to_matrix (branch_euler GimbalLock xa ya za)
   = basis_matrix xa ya za
   <-> Vector3D.x ya = 0).
Proof.
  intros Hrot Hz.
  destruct (gimbal_roll xa ya za Hrot ltac:(rewrite Hz; ring))
    as (H00 & H10 & H21 & H22 & H02 & H12 & Hc & Hs).
  unfold branch_euler. rewrite clamp_m20_minus by exact Hz.
  rewrite float_neg_1_0, float_0_0.
  destruct (Rleb_spec (-1) (-1)) as [_ | Hbad]; [ | exfalso; lra].
  unfold euler_zyx_to_matrix, mmul, Rx, Ry, Rz, basis_matrix.
  cbn [e00 e01 e02 e10 e11 e12 e20 e21 e22].
  rewrite Hc, Hs, cos_PI2, sin_PI2, cos_0, sin_0.
  rewrite H00, H10, H21, H22, H02, H12, Hz.
  split.
  - intros HM. injection HM as _ H01 _ _ _ _ _ _ _. lra.
  - intros H01. rewrite H01. f_equal; ring.
Qed.

(** X7. On an orthonormal right-handed basis at gimbal lock with
    [M20 = 1], the angles [(rx, ry, rz)] returned by [_axes_to_euler_zyx]
    satisfy [Rz(rz) * Ry(ry) * Rx(rx) = M]. *)
Theorem euler_gimbal_lock_plus_round_trip (xa ya za : Vector3D.t) :
  rotation_basis xa ya za ->
  Vector3D.z xa = 1 ->
  exists rx ry rz : R,
    _axes_to_euler_zyx xa ya za = Ok (rx, ry, rz)
    /\ mmul (Rz rz) (mmul (Ry ry) (Rx rx)) = basis_matrix xa ya za.
Proof.
  intros Hrot Hz.
  pose proof (gimbal_plus_matrix xa ya za Hrot Hz) as HM.
  rewrite axes_to_euler_branch, euler_branch_plus by exact Hz.
  destruct (branch_euler GimbalLock xa ya za) as [[rx ry] rz].
  exists rx, ry, rz. split; [reflexivity | exact HM].
Qed.

Lemma euler_gimbal_lock_plus_round_trip_witness :
  rotation_basis lockp_x lockp_y lockp_z
  /\ Vector3D.z lockp_x = 1
  /\ exists rx ry rz : R,
       _axes_to_euler_zyx lockp_x lockp_y lockp_z = Ok (rx, ry, rz)
       /\ mmul (Rz rz) (mmul (Ry ry) (Rx rx))
          = basis_matrix lockp_x lockp_y lockp_z.
Proof.
  assert (Hrot : rotation_basis lockp_x lockp_y lockp_z)
    by (constructor; cbv [det3 cross dot lockp_x lockp_y lockp_z
                          Vector3D.x Vector3D.y Vector3D.z]; ring).
  split; [exact Hrot | split; [reflexivity | ]].
  apply (euler_gimbal_lock_plus_round_trip lockp_x lockp_y lockp_z Hrot).
  reflexivity.
Defined.

(** X8. On an orthonormal right-handed basis at gimbal lock with
    [M20 = -1], the angles returned by [_axes_to_euler_zyx] satisfy
    [Rz(rz) * Ry(ry) * Rx(rx) = M] if and only if [M01 = 0]. *)
Theorem euler_gimbal_lock_minus_round_trip (xa ya za : Vector3D.t) :
  rotation_basis xa ya za ->
  Vector3D.z xa = -1 ->
  exists rx ry rz : R,
    _axes_to_euler_zyx xa ya za = Ok (rx, ry, rz)
    /\ (mmul (Rz rz) (mmul (Ry ry) (Rx rx)) = basis_matrix xa ya za
        <-> Vector3D.x ya = 0).
Proof.
  intros Hrot Hz.
  pose proof (gimbal_minus_matrix xa ya za Hrot Hz) as HM.
  rewrite axes_to_euler_branch, euler_branch_minus by exact Hz.
  destruct (branch_euler GimbalLock xa ya za) as [[rx ry] rz].
  exists rx, ry, rz. split; [reflexivity | exact HM].
Qed.

Lemma euler_gimbal_lock_minus_round_trip_witness :
  rotation_basis lock_x lock_y lock_z
  /\ Vector3D.z lock_x = -1
  /\ exists rx ry rz : R,
       _axes_to_euler_zyx lock_x lock_y lock_z = Ok (rx, ry, rz)
       /\ (mmul (Rz rz) (mmul (Ry ry) (Rx rx))
           = basis_matrix lock_x lock_y lock_z
           <-> Vector3D.x lock_y = 0).
Proof.
  split; [exact lock_basis | split; [reflexivity | ]].
  apply (euler_gimbal_lock_minus_round_trip lock_x lock_y lock_z lock_basis).
  reflexivity.
Defined.

(** X9. On an orthonormal right-handed basis with [M20 > -1], the
    quaternion and the Euler angles that [run] shows side by side describe
    the same rotation: the matrix of the one is the ZYX composition of the
    others. *)
Theorem quaternion_and_euler_agree (xa ya za : Vector3D.t) :
  rotation_basis xa ya za ->
  -1 < Vector3D.z xa ->
  exists (q : Quaternion) (e : EulerZYX),
    _axes_to_quaternion xa ya za = Ok q
    /\ _axes_to_euler_zyx xa ya za = Ok e
    /\ quat_to_matrix q = euler_zyx_to_matrix e.
Proof.
  intros Hrot Hz.
  exists (branch_quaternion (quat_branch xa ya za) xa ya za).
  exists (branch_euler (euler_branch xa) xa ya za).
  split; [apply axes_to_quaternion_branch | ].
  split; [apply axes_to_euler_branch | ].
  rewrite quat_to_matrix_branch by (exact Hrot || apply radicand_pos).
  assert (Hle : Vector3D.z xa <= 1).
  { pose proof (norm_x _ _ _ Hrot) as Hn. unfold dot in Hn. nra. }
  destruct Hle as [Hlt | Heq].
  - rewrite euler_branch_regular by lra.
    symmetry. apply euler_regular_round_trip; [exact Hrot | ].
    apply Rabs_def1; lra.
  - rewrite euler_branch_plus by exact Heq.
    symmetry. apply gimbal_plus_matrix; assumption.
Qed.

Lemma quaternion_and_euler_agree_witness :
  rotation_basis lockp_x lockp_y lockp_z
  /\ -1 < Vector3D.z lockp_x
  /\ exists (q : Quaternion) (e : EulerZYX),
       _axes_to_quaternion lockp_x lockp_y lockp_z = Ok q
       /\ _axes_to_euler_zyx lockp_x lockp_y lockp_z = Ok e
       /\ quat_to_matrix q = euler_zyx_to_matrix e.
Proof.
  assert (Hrot : rotation_basis lockp_x lockp_y lockp_z)
    by (constructor; cbv [det3 cross dot lockp_x lockp_y lockp_z
                          Vector3D.x Vector3D.y Vector3D.z]; ring).
  assert (Hz : -1 < Vector3D.z lockp_x)
    by (cbv [lockp_x Vector3D.z]; lra).
  split; [exact Hrot | split; [exact Hz | ]].
  apply (quaternion_and_euler_agree lockp_x lockp_y lockp_z Hrot Hz).
Defined.

(** X17. On every input, in both arms, the pitch [ry] returned by
    [_axes_to_euler_zyx] has sine [- clamp(M20, -1, 1)]. *)
Theorem euler_pitch_sine (xa ya za : Vector3D.t) :
  exists rx ry rz : R,
    _axes_to_euler_zyx xa ya za = Ok (rx, ry, rz)
    /\ sin ry = - Rmax (-1) (Rmin 1 (Vector3D.z xa)).
Proof.
  pose proof (clamp_m20_bounds xa) as Hc.
  assert (Hclamp : Rmax (-1) (Rmin 1 (Vector3D.z xa)) = clamp_m20 xa)
    by (unfold clamp_m20; rewrite float_1_0, float_neg_1_0; reflexivity).
  rewrite Hclamp, axes_to_euler_branch.
  unfold euler_branch, branch_euler.
  destruct (Rltb_spec (Rabs (clamp_m20 xa)) 1.0) as [Hlt | Hge];
    eexists _, _, _; (split; [reflexivity | ]).
  - rewrite sin_neg, sin_asin by exact Hc. reflexivity.
  - rewrite float_1_0 in Hge. rewrite float_neg_1_0.
    assert (Hends : clamp_m20 xa = -1 \/ clamp_m20 xa = 1).
    { destruct (Req_dec (clamp_m20 xa) (-1)) as [H | H]; [left; exact H | ].
      destruct (Req_dec (clamp_m20 xa) 1) as [H' | H']; [right; exact H' | ].
      exfalso. apply Hge. apply Rabs_def1; lra. }
    destruct (Rleb_spec (clamp_m20 xa) (-1)) as [Hle | Hgt].
    + rewrite sin_PI2. lra.
    + rewrite half_pi_neg, sin_neg, sin_PI2. lra.
Qed.

(** * Properties of the scene-graph helpers and of [run] *)

(** ** Strings *)

Lemma append_assoc' (a b c : string) : (a ++ b) ++ c = a ++ (b ++ c).
Proof. induction a as [ | ch a IH]; cbn; [reflexivity | now rewrite IH]. Qed.

Lemma prefix_spec (a b : string) :
  prefix a b = true <-> exists t, b = a ++ t.
Proof.
  revert b. induction a as [ | c a IH]; intros b.
  - split; [intros _; exists b; reflexivity | intros _; destruct b; reflexivity].
  - destruct b as [ | d b]; cbn.
    + split; [discriminate | intros [t Ht]; discriminate].
    + destruct (ascii_dec c d) as [-> | Hne].
      * rewrite IH. split; intros [t Ht]; exists t.
        -- now rewrite Ht.
        -- now injection Ht.
      * split; [discriminate | ].
        intros [t Ht]. injection Ht as Hd _. congruence.
Qed.

Lemma contains_spec (needle hay : string) :
  contains needle hay = true
  <-> exists pre post, hay = pre ++ needle ++ post.
Proof.
  induction hay as [ | c hay IH]; cbn [contains]; rewrite orb_true_iff.
  - split.
    + intros [H | H]; [ | discriminate].
      apply prefix_spec in H. destruct H as [t Ht].
      exists "", t. exact Ht.
    + intros [pre [post H]]. left. apply prefix_spec.
      destruct pre; [exists post; exact H | discriminate].
  - rewrite IH, prefix_spec. split.
    + intros [[t Ht] | [pre [post H]]].
      * exists "", t. exact Ht.
      * exists (String c pre), post. cbn. now rewrite H.
    + intros [pre [post H]]. destruct pre as [ | d pre].
      * left. exists post. exact H.
      * right. cbn in H. injection H as _ H. exists pre, post. exact H.
Qed.

(** ** [_find_tcp_occurrences] *)

Lemma find_tcp_loop (l exact fallback : list Occurrence) :
  fold_left
    (fun (acc : list Occurrence * list Occurrence) (occ : Occurrence) =>
       let '(exact, fallback) := acc in
       let name := name (component occ) in
       if name =? "TCP" then (exact ++ [occ], fallback)%list
       else if contains "tcp" (lower name) then (exact, fallback ++ [occ])%list
       else (exact, fallback))
    l (exact, fallback)
  = ((exact ++ filter is_exact l)%list, (fallback ++ filter is_fallback l)%list).
Proof.
  revert exact fallback. induction l as [ | o l IH]; intros exact fallback.
  - cbn. now rewrite !app_nil_r.
  - cbn [fold_left filter]. unfold is_exact at 1, is_fallback at 1.
    destruct (name (component o) =? "TCP") eqn:He; cbn [negb andb].
    + rewrite IH, <- app_assoc. reflexivity.
    + destruct (contains "tcp" (lower (name (component o)))) eqn:Hc.
      * rewrite IH, <- app_assoc. reflexivity.
      * apply IH.
Qed.

(** X10. [_find_tcp_occurrences] returns, in traversal order, the
    occurrences whose component is named exactly ["TCP"], and those of the
    others whose lower-cased name contains ["tcp"]. *)
Theorem find_tcp_occurrences_filters (root : Component) :
  _find_tcp_occurrences root
  = (filter (fun o => name (component o) =? "TCP") (allOccurrences root),
     filter (fun o => negb (name (component o) =? "TCP")
                      && contains "tcp" (lower (name (component o))))
            (allOccurrences root)).
Proof. unfold _find_tcp_occurrences. apply find_tcp_loop. Qed.

(** X11. An occurrence is in one of the two lists returned by
    [_find_tcp_occurrences] exactly when it is an occurrence of the root
    and its lower-cased component name has ["tcp"] as a substring. *)
Theorem find_tcp_occurrences_members (root : Component) (o : Occurrence) :
  In o (fst (_find_tcp_occurrences root) ++ snd (_find_tcp_occurrences root))%list
  <-> In o (allOccurrences root)
      /\ exists pre post, lower (name (component o)) = pre ++ "tcp" ++ post.
Proof.
  unfold _find_tcp_occurrences. rewrite find_tcp_loop. cbn [fst snd app].
  rewrite in_app_iff, !filter_In, <- contains_spec.
  unfold is_exact, is_fallback.
  destruct (name (component o) =? "TCP") eqn:He; cbn [negb andb].
  - apply String.eqb_eq in He. rewrite He. cbn. tauto.
  - split; [intros [[_ H] | H]; [discriminate | exact H] | tauto].
Qed.

(** ** [_occ_path] *)

Lemma concat_snoc (sep x : string) (l : list string) :
  l <> [] ->
  String.concat sep (l ++ [x]) = String.concat sep l ++ sep ++ x.
Proof.
  induction l as [ | a l IH]; [congruence | intros _].
  destruct l as [ | b l].
  - reflexivity.
  - change (String.concat sep ((a :: b :: l) ++ [x]))
      with (a ++ sep ++ String.concat sep ((b :: l) ++ [x])).
    rewrite IH by discriminate.
    change (String.concat sep (a :: b :: l))
      with (a ++ sep ++ String.concat sep (b :: l)).
    now rewrite !append_assoc'.
Qed.

Lemma occ_parts_nonempty (o : Occurrence) : rev (occ_parts o) <> [].
Proof.
  destruct o as [c ctx T]. cbn [occ_parts rev].
  intros H. apply app_eq_nil in H. destruct H; discriminate.
Qed.

(** X12. The path of an occurrence without context is its component
    name; otherwise it is the path of its context, a slash, and its
    component name. *)
Theorem occ_path_step (o : Occurrence) :
  _occ_path o
  = match assemblyContext o with
    | None => name (component o)
    | Some p => _occ_path p ++ "/" ++ name (component o)
    end.
Proof.
  destruct o as [c [p | ] T]; unfold _occ_path; cbn [occ_parts rev assemblyContext component].
  - apply concat_snoc. apply occ_parts_nonempty.
  - reflexivity.
Qed.

Lemma no_slash_cons (c : ascii) (t : string) :
  contains "/" (String c t) = false ->
  Ascii.eqb c "/" = false /\ contains "/" t = false.
Proof.
  cbn [contains prefix]. intros H. apply orb_false_iff in H as [Hp Ht].
  split; [ | exact Ht].
  destruct (ascii_dec "/" c) as [<- | Hne]; [ | now apply Ascii.eqb_neq; congruence].
  destruct t; discriminate.
Qed.

Lemma split_on_free (x rest : string) :
  contains "/" x = false ->
  split_on "/" (x ++ String "/" rest) = x :: split_on "/" rest.
Proof.
  induction x as [ | c x IH]; intros Hx.
  - reflexivity.
  - apply no_slash_cons in Hx as [Hc Hx].
    cbn [append split_on]. rewrite Hc, IH by exact Hx. reflexivity.
Qed.

Lemma split_on_free_last (x : string) :
  contains "/" x = false -> split_on "/" x = [x].
Proof.
  induction x as [ | c x IH]; intros Hx.
  - reflexivity.
  - apply no_slash_cons in Hx as [Hc Hx].
    cbn [split_on]. rewrite Hc, IH by exact Hx. reflexivity.
Qed.

Lemma split_on_concat (l : list string) :
  l <> [] ->
  Forall (fun s => contains "/" s = false) l ->
  split_on "/" (String.concat "/" l) = l.
Proof.
  induction l as [ | a l IH]; [congruence | intros _ Hall].
  inversion Hall as [ | ? ? Ha Hl]; subst.
  destruct l as [ | b l].
  - cbn. apply split_on_free_last. exact Ha.
  - change (String.concat "/" (a :: b :: l))
      with (a ++ String "/" (String.concat "/" (b :: l))).
    rewrite split_on_free by exact Ha.
    rewrite IH by (discriminate || exact Hl). reflexivity.
Qed.

(** X13. When no component name along either chain contains a slash,
    two occurrences with the same path have the same chain of names. *)
Theorem occ_path_injective (o1 o2 : Occurrence) :
  Forall (fun s => contains "/" s = false) (occ_parts o1) ->
  Forall (fun s => contains "/" s = false) (occ_parts o2) ->
  _occ_path o1 = _occ_path o2 ->
  occ_parts o1 = occ_parts o2.
Proof.
  intros H1 H2 Hp.
  apply (f_equal (split_on "/")) in Hp. unfold _occ_path in Hp.
  rewrite !split_on_concat in Hp
    by (apply occ_parts_nonempty || (apply Forall_rev; assumption)).
  apply (f_equal (@rev string)) in Hp. now rewrite !rev_involutive in Hp.
Qed.

Lemma occ_path_injective_witness :
  Forall (fun s => contains "/" s = false) (occ_parts occ_tcp)
  /\ Forall (fun s => contains "/" s = false)
            (occ_parts (mkOccurrence (mkComponent "TCP" [occ_asm])
                                     (Some occ_sub) frame0))
  /\ _occ_path occ_tcp
     = _occ_path (mkOccurrence (mkComponent "TCP" [occ_asm])
                               (Some occ_sub) frame0)
  /\ occ_parts occ_tcp
     = occ_parts (mkOccurrence (mkComponent "TCP" [occ_asm])
                               (Some occ_sub) frame0).
Proof.
  assert (H1 : Forall (fun s => contains "/" s = false) (occ_parts occ_tcp))
    by (repeat constructor).
  assert (H2 : Forall (fun s => contains "/" s = false)
                 (occ_parts (mkOccurrence (mkComponent "TCP" [occ_asm])
                                          (Some occ_sub) frame0)))
    by (repeat constructor).
  split; [exact H1 | split; [exact H2 | split; [reflexivity | ]]].
  apply (occ_path_injective occ_tcp
           (mkOccurrence (mkComponent "TCP" [occ_asm]) (Some occ_sub) frame0)
           H1 H2).
  reflexivity.
Defined.

(** ** [run] *)

Lemma find_filter (A : Type) (f : A -> bool) (l : list A) (a : A) :
  find f l = Some a -> exists rest, filter f l = a :: rest.
Proof.
  induction l as [ | b l IH]; cbn; [discriminate | ].
  destruct (f b); [ | exact IH].
  intros H. injection H as ->. eexists. reflexivity.
Qed.

Lemma run_on_candidates (format_3f format_9f : R -> string)
  (format_exc : PyFault -> string) (design : Design)
  (tcp_occ : Occurrence) (rest : list Occurrence) :
  match fst (_find_tcp_occurrences (rootComponent design)) with
  | [] => snd (_find_tcp_occurrences (rootComponent design))
  | _ :: _ => fst (_find_tcp_occurrences (rootComponent design))
  end = tcp_occ :: rest ->
  run format_3f format_9f format_exc (Some design)
  = (multiple_warning (tcp_occ :: rest)
     ++ occurrence_pose format_3f format_9f tcp_occ)%list.
Proof.
  unfold run, occurrence_pose.
  destruct (_find_tcp_occurrences (rootComponent design)) as [exact fallback].
  cbn [fst snd]. intros ->.
  unfold getAsCoordinateSystem.
  rewrite axes_to_quaternion_branch, axes_to_euler_branch. reflexivity.
Qed.

Lemma filter_none (A : Type) (f : A -> bool) (l : list A) :
  (forall a, In a l -> f a = false) -> filter f l = [].
Proof.
  induction l as [ | b l IH]; intros H; [reflexivity | ].
  cbn [filter]. rewrite (H b) by (left; reflexivity).
  apply IH. intros a Ha. apply H. right. exact Ha.
Qed.

Lemma find_tcp_split (root : Component) :
  _find_tcp_occurrences root
  = (filter is_exact (allOccurrences root),
     filter is_fallback (allOccurrences root)).
Proof. unfold _find_tcp_occurrences. apply find_tcp_loop. Qed.

(** X14. When some occurrence is named exactly ["TCP"], [run] reports the
    first such occurrence in traversal order, whatever other names contain
    ["tcp"]: it shows the pose popup and logs the pose, after the
    "Multiple" popup when two or more occurrences are named exactly
    ["TCP"], and it never shows a traceback. *)
Theorem run_prefers_exact (format_3f format_9f : R -> string)
  (format_exc : PyFault -> string) (design : Design) (tcp_occ : Occurrence) :
  find is_exact (allOccurrences (rootComponent design)) = Some tcp_occ ->
  run format_3f format_9f format_exc (Some design)
  = (multiple_warning (filter is_exact (allOccurrences (rootComponent design)))
     ++ occurrence_pose format_3f format_9f tcp_occ)%list.
Proof.
  intros Hfind. apply find_filter in Hfind as [rest Hrest].
  rewrite Hrest. apply run_on_candidates.
  rewrite find_tcp_split. cbn [fst snd]. rewrite Hrest. reflexivity.
Qed.

Lemma run_prefers_exact_witness :
  find is_exact (allOccurrences (rootComponent scene_exact)) = Some occ_tcp
  /\ run no_format no_format no_traceback (Some scene_exact)
     = (multiple_warning
          (filter is_exact (allOccurrences (rootComponent scene_exact)))
        ++ occurrence_pose no_format no_format occ_tcp)%list.
Proof.
  split; [reflexivity | ].
  apply (run_prefers_exact no_format no_format no_traceback scene_exact
           occ_tcp).
  reflexivity.
Defined.

(** X15. When no occurrence is named exactly ["TCP"], [run] reports the
    first occurrence whose lower-cased name contains ["tcp"]: pose popup
    and log line, after the "Multiple" popup when two or more names
    match, and no traceback. *)
Theorem run_falls_back (format_3f format_9f : R -> string)
  (format_exc : PyFault -> string) (design : Design) (tcp_occ : Occurrence) :
  filter is_exact (allOccurrences (rootComponent design)) = [] ->
  find is_fallback (allOccurrences (rootComponent design)) = Some tcp_occ ->
  run format_3f format_9f format_exc (Some design)
  = (multiple_warning
       (filter is_fallback (allOccurrences (rootComponent design)))
     ++ occurrence_pose format_3f format_9f tcp_occ)%list.
Proof.
  intros Hnone Hfind. apply find_filter in Hfind as [rest Hrest].
  rewrite Hrest. apply run_on_candidates.
  rewrite find_tcp_split. cbn [fst snd]. rewrite Hnone, Hrest. reflexivity.
Qed.

Lemma run_falls_back_witness :
  filter is_exact (allOccurrences (rootComponent scene_fallback)) = []
  /\ find is_fallback (allOccurrences (rootComponent scene_fallback))
     = Some occ_tool
  /\ run no_format no_format no_traceback (Some scene_fallback)
     = (multiple_warning
          (filter is_fallback (allOccurrences (rootComponent scene_fallback)))
        ++ occurrence_pose no_format no_format occ_tool)%list.
Proof.
  split; [reflexivity | split; [reflexivity | ]].
  apply (run_falls_back no_format no_format no_traceback scene_fallback
           occ_tool); reflexivity.
Defined.

(** X16. When no component name of the design contains ["tcp"] once
    lower-cased, [run] shows the single popup "No occurrence found for a
    component named 'TCP'." and logs nothing. *)
Theorem run_without_candidate (format_3f format_9f : R -> string)
  (format_exc : PyFault -> string) (design : Design) :
  (forall o, In o (allOccurrences (rootComponent design)) ->
             contains "tcp" (lower (name (component o))) = false) ->
  run format_3f format_9f format_exc (Some design)
  = [MessageBox "No occurrence found for a component named 'TCP'."].
Proof.
  intros Hnone.
  assert (He : filter is_exact (allOccurrences (rootComponent design)) = []).
  { apply filter_none. intros o Ho. apply Hnone in Ho.
    unfold is_exact. destruct (name (component o) =? "TCP") eqn:E;
      [ | reflexivity].
    apply String.eqb_eq in E. rewrite E in Ho. discriminate. }
  assert (Hf : filter is_fallback (allOccurrences (rootComponent design)) = []).
  { apply filter_none. intros o Ho. apply Hnone in Ho.
    unfold is_fallback. rewrite Ho. apply andb_false_r. }
  unfold run. rewrite find_tcp_split, He, Hf. reflexivity.
Qed.

Lemma run_without_candidate_witness :
  (forall o, In o (allOccurrences (rootComponent scene_none)) ->
             contains "tcp" (lower (name (component o))) = false)
  /\ run no_format no_format no_traceback (Some scene_none)
     = [MessageBox "No occurrence found for a component named 'TCP'."].
Proof.
  assert (H : forall o, In o (allOccurrences (rootComponent scene_none)) ->
                        contains "tcp" (lower (name (component o))) = false).
  { intros o [<- | [<- | []]]; reflexivity. }
  split; [exact H | ].
  apply (run_without_candidate no_format no_format no_traceback scene_none H).
Defined.
